(** * The Pawn abstract machine interface (amx.h)

    A shallow embedding of [source/amx/amx.h]: the build configuration the
    header branches on, its constants and enumerations, the packed on-disk
    structures and the macros that navigate them, followed by models of the
    entry points the header only declares. *)

From Stdlib Require Import ZArith Lia Bool List.
From stdpp Require Import base decidable option list numbers.
Import ListNotations.
Local Open Scope Z_scope.

(** ** Build configuration *)

(** [PAWN_CELL_SIZE] after the header's [#if]/[#error] ladder: only three
    widths survive preprocessing. *)
Inductive CellSize : Set := Cell16 | Cell32 | Cell64.

(** Width of a host pointer ([__64BIT__] defined or not). *)
Inductive PtrSize : Set := Ptr32 | Ptr64.

Record Build : Set := mkBuild {
  cell_size : CellSize;      (* PAWN_CELL_SIZE *)
  ptr_size  : PtrSize;       (* __64BIT__ *)
  JIT       : bool;          (* #if defined JIT *)
  USERNUM   : option nat;    (* a pre-defined AMX_USERNUM, if any *)
  DEF_32BIT : bool           (* #if defined __32BIT__; amx.h never defines it *)
}.

#[global] Instance CellSize_eq_dec : EqDecision CellSize.
Proof. solve_decision. Defined.

#[global] Instance PtrSize_eq_dec : EqDecision PtrSize.
Proof. solve_decision. Defined.

Definition PAWN_CELL_SIZE (W : CellSize) : Z :=
  match W with Cell16 => 16 | Cell32 => 32 | Cell64 => 64 end.

(** The [#if PAWN_CELL_SIZE==16 ... #else #error] ladder read backwards:
    which integer settings of the macro compile at all. *)
Definition cell_size_of_bits (bits : Z) : option CellSize :=
  if bits =? 16 then Some Cell16
  else if bits =? 32 then Some Cell32
  else if bits =? 64 then Some Cell64
  else None.

(** [#if !defined PAWN_CELL_SIZE]: 64 under [__64BIT__], 32 otherwise. *)
Definition default_cell_size (P : PtrSize) : CellSize :=
  match P with Ptr64 => Cell64 | Ptr32 => Cell32 end.

Definition ptr_bits (P : PtrSize) : Z :=
  match P with Ptr32 => 32 | Ptr64 => 64 end.

Definition default_build : Build :=
  {| cell_size := default_cell_size Ptr64; ptr_size := Ptr64;
     JIT := false; USERNUM := None; DEF_32BIT := false |}.

(** ** C integer conversions *)

(** Conversion to an unsigned type of [bits] bits. *)
Definition to_unsigned (bits x : Z) : Z := x mod 2 ^ bits.

(** Conversion to a signed two's-complement type of [bits] bits. *)
Definition to_signed (bits x : Z) : Z :=
  (x + 2 ^ (bits - 1)) mod 2 ^ bits - 2 ^ (bits - 1).

Definition to_cell (W : CellSize) (x : Z) : Z := to_signed (PAWN_CELL_SIZE W) x.
Definition to_ucell (W : CellSize) (x : Z) : Z := to_unsigned (PAWN_CELL_SIZE W) x.
Definition to_uintptr (P : PtrSize) (x : Z) : Z := to_unsigned (ptr_bits P) x.
(** [int] and [unsigned] are 32 bits wide on every target of the header. *)
Definition to_int (x : Z) : Z := to_signed 32 x.
Definition to_uint (x : Z) : Z := to_unsigned 32 x.

(** ** C object types and packed structures *)

Inductive ctype : Set :=
| t_char | t_int16 | t_uint16 | t_int32 | t_uint32
| t_cell | t_ucell
| t_array (elt : ctype) (n : nat).

Fixpoint sizeof (W : CellSize) (t : ctype) : Z :=
  match t with
  | t_char => 1
  | t_int16 | t_uint16 => 2
  | t_int32 | t_uint32 => 4
  | t_cell | t_ucell => PAWN_CELL_SIZE W / 8
  | t_array elt n => Z.of_nat n * sizeof W elt
  end.

Fixpoint is_signed (t : ctype) : bool :=
  match t with
  | t_char | t_int16 | t_int32 | t_cell => true
  | t_uint16 | t_uint32 | t_ucell => false
  | t_array elt _ => is_signed elt
  end.

(** A structure is the list of its members in declaration order; the header
    packs every structure to byte boundaries ([#pragma pack(1)], [PACKED]). *)
Definition struct := list ctype.

Definition sizeof_struct (W : CellSize) (s : struct) : Z :=
  fold_right (fun t acc => sizeof W t + acc) 0 s.

(** Offset of the [i]-th member of a packed structure. *)
Definition offsetof (W : CellSize) (s : struct) (i : nat) : Z :=
  sizeof_struct W (firstn i s).

(** ** Version constants *)

Definition CUR_FILE_VERSION : Z := 9.
Definition MIN_FILE_VERSION : Z := 6.
Definition MIN_AMX_VERSION  : Z := 10.
Definition MAX_FILE_VER_JIT : Z := 8.
Definition MIN_AMX_VER_JIT  : Z := 8.

(** [#define STKMARGIN ((cell)(16*sizeof(cell)))] *)
Definition STKMARGIN (W : CellSize) : Z := to_cell W (16 * sizeof W t_cell).

(** [#if !defined AMX_USERNUM  #define AMX_USERNUM 4] *)
Definition AMX_USERNUM (B : Build) : nat :=
  match USERNUM B with Some n => n | None => 4%nat end.

Definition sEXPMAX : nat := 19.
Definition sNAMEMAX : nat := 31.

(** ** Error codes *)

Inductive AMX_ERR : Set :=
| AMX_ERR_NONE
| AMX_ERR_EXIT | AMX_ERR_ASSERT | AMX_ERR_STACKERR | AMX_ERR_BOUNDS
| AMX_ERR_MEMACCESS | AMX_ERR_INVINSTR | AMX_ERR_STACKLOW | AMX_ERR_HEAPLOW
| AMX_ERR_CALLBACK | AMX_ERR_NATIVE | AMX_ERR_DIVIDE | AMX_ERR_SLEEP
| AMX_ERR_INVSTATE
| AMX_ERR_MEMORY | AMX_ERR_FORMAT | AMX_ERR_VERSION | AMX_ERR_NOTFOUND
| AMX_ERR_INDEX | AMX_ERR_DEBUG | AMX_ERR_INIT | AMX_ERR_USERDATA
| AMX_ERR_INIT_JIT | AMX_ERR_PARAMS | AMX_ERR_DOMAIN | AMX_ERR_GENERAL.

#[global] Instance AMX_ERR_eq_dec : EqDecision AMX_ERR.
Proof. solve_decision. Defined.

(** The enumerator list of the anonymous [enum], in declaration order, each
    with its explicit initialiser when the source gives one. *)
Definition error_enum : list (AMX_ERR * option Z) :=
  [ (AMX_ERR_NONE, None);
    (AMX_ERR_EXIT, None); (AMX_ERR_ASSERT, None); (AMX_ERR_STACKERR, None);
    (AMX_ERR_BOUNDS, None); (AMX_ERR_MEMACCESS, None);
    (AMX_ERR_INVINSTR, None); (AMX_ERR_STACKLOW, None);
    (AMX_ERR_HEAPLOW, None); (AMX_ERR_CALLBACK, None);
    (AMX_ERR_NATIVE, None); (AMX_ERR_DIVIDE, None); (AMX_ERR_SLEEP, None);
    (AMX_ERR_INVSTATE, None);
    (AMX_ERR_MEMORY, Some 16); (AMX_ERR_FORMAT, None);
    (AMX_ERR_VERSION, None); (AMX_ERR_NOTFOUND, None);
    (AMX_ERR_INDEX, None); (AMX_ERR_DEBUG, None); (AMX_ERR_INIT, None);
    (AMX_ERR_USERDATA, None); (AMX_ERR_INIT_JIT, None);
    (AMX_ERR_PARAMS, None); (AMX_ERR_DOMAIN, None);
    (AMX_ERR_GENERAL, None) ].

(** C's rule for enumerator values: an explicit initialiser is taken as it
    is, any other enumerator is one more than its predecessor, the first is
    zero. [next] is the value an enumerator without initialiser receives. *)
Fixpoint enum_values {A : Type} (next : Z) (decls : list (A * option Z))
  : list (A * Z) :=
  match decls with
  | [] => []
  | (name, init) :: rest =>
      let v := match init with Some k => k | None => next end in
      (name, v) :: enum_values (v + 1) rest
  end.

Fixpoint enum_lookup (e : AMX_ERR) (tbl : list (AMX_ERR * Z)) : option Z :=
  match tbl with
  | [] => None
  | (e', v) :: rest => if decide (e = e') then Some v else enum_lookup e rest
  end.

(** The [int] an error enumerator stands for. *)
Definition err_code (e : AMX_ERR) : Z :=
  match enum_lookup e (enum_values 0 error_enum) with
  | Some v => v
  | None => 0
  end.

(** ** Flag bits *)

Definition AMX_FLAG_DEBUG      : Z := 0x02.
Definition AMX_FLAG_COMPACT    : Z := 0x04.
Definition AMX_FLAG_SLEEP      : Z := 0x08.
Definition AMX_FLAG_NOCHECKS   : Z := 0x10.
Definition AMX_FLAG_NO_RELOC   : Z := 0x200.
Definition AMX_FLAG_NO_SYSREQD : Z := 0x400.
Definition AMX_FLAG_SYSREQN    : Z := 0x800.
Definition AMX_FLAG_NTVREG     : Z := 0x1000.
Definition AMX_FLAG_JITC       : Z := 0x2000.
Definition AMX_FLAG_BROWSE     : Z := 0x4000.
Definition AMX_FLAG_RELOC      : Z := 0x8000.

(** Every flag the header defines, in the order of its [#define]s. *)
Definition amx_flags : list Z :=
  [ AMX_FLAG_DEBUG; AMX_FLAG_COMPACT; AMX_FLAG_SLEEP; AMX_FLAG_NOCHECKS;
    AMX_FLAG_NO_RELOC; AMX_FLAG_NO_SYSREQD; AMX_FLAG_SYSREQN;
    AMX_FLAG_NTVREG; AMX_FLAG_JITC; AMX_FLAG_BROWSE; AMX_FLAG_RELOC ].

(** A value with exactly one bit set. *)
Definition single_bit (x : Z) : Prop := exists k, 0 <= k /\ x = 2 ^ k.

(** No two entries of a list have a bit in common. *)
Fixpoint pairwise_disjoint (l : list Z) : Prop :=
  match l with
  | [] => True
  | x :: rest => Forall (fun y => Z.land x y = 0) rest /\ pairwise_disjoint rest
  end.


Definition AMX_MAGIC_16 : Z := 0xf1e2.
Definition AMX_MAGIC_32 : Z := 0xf1e0.
Definition AMX_MAGIC_64 : Z := 0xf1e1.

(** [#if PAWN_CELL_SIZE==16 #define AMX_MAGIC AMX_MAGIC_16 #elif ...] *)
Definition AMX_MAGIC (W : CellSize) : Z :=
  match W with
  | Cell16 => AMX_MAGIC_16
  | Cell32 => AMX_MAGIC_32
  | Cell64 => AMX_MAGIC_64
  end.

(** Width of [long] and [unsigned long] on the host: 32 bits, or 64 bits
    under LP64. *)
Inductive LongSize : Set := Long32 | Long64.

Definition long_bits (L : LongSize) : Z :=
  match L with Long32 => 32 | Long64 => 64 end.

Definition to_long (L : LongSize) (x : Z) : Z := to_signed (long_bits L) x.

(** [#define AMX_USERTAG(a,b,c,d) ((a) | ((b)<<8) | ((long)(c)<<16) | ((long)(d)<<24))]
    applied to arguments of type [int]: the first two terms are computed in
    [int], the last two, after the cast, in [long], and the result is a
    [long]. A shift that leaves the type's range wraps around, as on the
    two's complement hosts the header is written for. *)
Definition AMX_USERTAG (L : LongSize) (a b c d : Z) : Z :=
  Z.lor (Z.lor (Z.lor (to_int a) (to_int (Z.shiftl (to_int b) 8)))
               (to_long L (Z.shiftl (to_long L (to_int c)) 16)))
        (to_long L (Z.shiftl (to_long L (to_int d)) 24)).

(** ** Host memory *)

(** Host memory as seen through [unsigned char *]: one byte per address. *)
Definition Memory := Z -> Z.

(** A little-endian unsigned read of [n] bytes. The header fixes the file
    format as little-endian and aligns other hosts at load time. *)
Fixpoint read_le (mem : Memory) (addr : Z) (n : nat) : Z :=
  match n with
  | O => 0
  | S k => mem addr mod 256 + 256 * read_le mem (addr + 1) k
  end.

(** Reading an object of a scalar type. *)
Definition read_as (W : CellSize) (t : ctype) (mem : Memory) (addr : Z) : Z :=
  let raw := read_le mem addr (Z.to_nat (sizeof W t)) in
  if is_signed t then to_signed (8 * sizeof W t) raw else raw.

(** A buffer laid out at [base]; bytes beyond it read as zero. *)
Definition mem_of_bytes (base : Z) (bytes : list Z) : Memory :=
  fun a => if (base <=? a) then nth (Z.to_nat (a - base)) bytes 0 else 0.

(** The [n] little-endian bytes of a value. *)
Fixpoint bytes_le (n : nat) (x : Z) : list Z :=
  match n with
  | O => []
  | S k => x mod 256 :: bytes_le k (x / 256)
  end.

(** ** Table records *)

(** [typedef struct tagAMX_FUNCSTUB { ucell address; char name[sEXPMAX+1]; }] *)
Definition AMX_FUNCSTUB : struct := [ t_ucell; t_array t_char (sEXPMAX + 1) ].

(** [typedef struct tagFUNCSTUBNT { ucell address; uint32_t nameofs; }] *)
Definition AMX_FUNCSTUBNT : struct := [ t_ucell; t_uint32 ].

(** [typedef struct tagFUNCPART { ucell address; }] : the part both record
    shapes share. *)
Definition AMX_FUNCPART : struct := [ t_ucell ].

(** ** The instance structure *)

Record AMX : Set := mkAMX {
  base : Z;            (* AMX header plus the code, optionally also the data *)
  data : Z;            (* separate data+stack+heap, may be NULL *)
  callback : Z;
  debug : Z;
  cip : Z;
  frm : Z;
  hea : Z;
  hlw : Z;
  stk : Z;
  stp : Z;
  flags : Z;
  usertags : list Z;   (* long usertags[AMX_USERNUM] *)
  userdata : list Z;   (* void *userdata[AMX_USERNUM] *)
  error : Z;          (* int error, an error code *)
  paramcount : Z;
  pri : Z;
  alt : Z;
  reset_stk : Z;
  reset_hea : Z;
  sysreq_d : Z
}.

Definition NULL : Z := 0.


Definition set_hea (a : AMX) (v : Z) : AMX :=
  mkAMX (base a) (data a) (callback a) (debug a) (cip a) (frm a) v (hlw a)
        (stk a) (stp a) (flags a) (usertags a) (userdata a) (error a)
        (paramcount a) (pri a) (alt a) (reset_stk a) (reset_hea a) (sysreq_d a).

Definition set_stk (a : AMX) (v : Z) : AMX :=
  mkAMX (base a) (data a) (callback a) (debug a) (cip a) (frm a) (hea a) (hlw a)
        v (stp a) (flags a) (usertags a) (userdata a) (error a)
        (paramcount a) (pri a) (alt a) (reset_stk a) (reset_hea a) (sysreq_d a).


Definition set_paramcount (a : AMX) (v : Z) : AMX :=
  mkAMX (base a) (data a) (callback a) (debug a) (cip a) (frm a) (hea a) (hlw a)
        (stk a) (stp a) (flags a) (usertags a) (userdata a) (error a)
        v (pri a) (alt a) (reset_stk a) (reset_hea a) (sysreq_d a).

Definition set_user (a : AMX) (tags ptrs : list Z) : AMX :=
  mkAMX (base a) (data a) (callback a) (debug a) (cip a) (frm a) (hea a) (hlw a)
        (stk a) (stp a) (flags a) tags ptrs (error a)
        (paramcount a) (pri a) (alt a) (reset_stk a) (reset_hea a) (sysreq_d a).

(** ** The module header *)

(** [typedef struct tagAMX_HEADER], member by member. *)
Definition AMX_HEADER_layout : struct :=
  [ t_int32;   (*  0 size *)
    t_uint16;  (*  1 magic *)
    t_char;    (*  2 file_version *)
    t_char;    (*  3 amx_version *)
    t_int16;   (*  4 flags *)
    t_int16;   (*  5 defsize *)
    t_int32;   (*  6 cod *)
    t_int32;   (*  7 dat *)
    t_int32;   (*  8 hea *)
    t_int32;   (*  9 stp *)
    t_int32;   (* 10 cip *)
    t_int32;   (* 11 publics *)
    t_int32;   (* 12 natives *)
    t_int32;   (* 13 libraries *)
    t_int32;   (* 14 pubvars *)
    t_int32;   (* 15 tags *)
    t_int32 ]. (* 16 nametable *)

Record AMX_HEADER : Set := mkHeader {
  h_size : Z;
  h_magic : Z;
  h_file_version : Z;
  h_amx_version : Z;
  h_flags : Z;
  h_defsize : Z;
  h_cod : Z;
  h_dat : Z;
  h_hea : Z;
  h_stp : Z;
  h_cip : Z;
  h_publics : Z;
  h_natives : Z;
  h_libraries : Z;
  h_pubvars : Z;
  h_tags : Z;
  h_nametable : Z
}.

(** The [i]-th member of the header found at [p]. *)
Definition header_member (mem : Memory) (p : Z) (i : nat) : Z :=
  read_as Cell32 (nth i AMX_HEADER_layout t_char) mem
          (p + offsetof Cell32 AMX_HEADER_layout i).

(** The header that a pointer [p], cast to a header pointer, designates. No
    member of the header is a cell, so its layout is the same in every build. *)
Definition read_header (mem : Memory) (p : Z) : AMX_HEADER :=
  let f := header_member mem p in
  mkHeader (f 0%nat) (f 1%nat) (f 2%nat) (f 3%nat) (f 4%nat) (f 5%nat)
           (f 6%nat) (f 7%nat) (f 8%nat) (f 9%nat) (f 10%nat) (f 11%nat)
           (f 12%nat) (f 13%nat) (f 14%nat) (f 15%nat) (f 16%nat).

(** The members of a header with their sizes in bytes, in layout order. *)
Definition header_fields (h : AMX_HEADER) : list (nat * Z) :=
  [ (4%nat, h_size h); (2%nat, h_magic h); (1%nat, h_file_version h);
    (1%nat, h_amx_version h); (2%nat, h_flags h); (2%nat, h_defsize h);
    (4%nat, h_cod h); (4%nat, h_dat h); (4%nat, h_hea h); (4%nat, h_stp h);
    (4%nat, h_cip h); (4%nat, h_publics h); (4%nat, h_natives h);
    (4%nat, h_libraries h); (4%nat, h_pubvars h); (4%nat, h_tags h);
    (4%nat, h_nametable h) ].

(** Members written one after the other, each little-endian. *)
Definition encode (fs : list (nat * Z)) : list Z :=
  flat_map (fun f => bytes_le (fst f) (snd f)) fs.

(** The first bytes of an image whose header is [h]. *)
Definition header_bytes (h : AMX_HEADER) : list Z := encode (header_fields h).

(** A value that an object of type [t] can hold. *)
Definition fits (t : ctype) (x : Z) : Prop :=
  if is_signed t
  then - 2 ^ (8 * sizeof Cell32 t - 1) <= x < 2 ^ (8 * sizeof Cell32 t - 1)
  else 0 <= x < 2 ^ (8 * sizeof Cell32 t).

(** Every member of the header holds a value of its type. *)
Definition header_wf (h : AMX_HEADER) : Prop :=
  Forall2 fits AMX_HEADER_layout (map snd (header_fields h)).

(** ** Table macros *)

(** [#define USENAMETABLE(hdr) ((hdr)->defsize==sizeof(AMX_FUNCSTUBNT))].
    [defsize] is an [int16_t]; the comparison is made in [size_t]. *)
Definition USENAMETABLE (B : Build) (hdr : AMX_HEADER) : bool :=
  to_uintptr (ptr_size B) (h_defsize hdr)
  =? sizeof_struct (cell_size B) AMX_FUNCSTUBNT.

(** [#define NUMENTRIES(hdr,field,nextfield)
      (unsigned)(((hdr)->nextfield - (hdr)->field) / (hdr)->defsize)] *)
Definition NUMENTRIES (hdr : AMX_HEADER) (field nextfield : AMX_HEADER -> Z) : Z :=
  to_uint (Z.quot (to_int (nextfield hdr - field hdr)) (h_defsize hdr)).

(** [#define GETENTRY(hdr,table,index)]: the byte pointer [hdr], plus
    [(unsigned)(hdr)->table], plus [(unsigned)index] times [(hdr)->defsize],
    as a pointer to the shared part of a record. The sum is a host pointer:
    it wraps around at the pointer width. *)
Definition GETENTRY (P : PtrSize) (p : Z) (hdr : AMX_HEADER)
  (table : AMX_HEADER -> Z) (index : Z) : Z :=
  to_uintptr P
    (p + to_uint (table hdr)
     + to_uint (to_uint index * to_uint (h_defsize hdr))).

(** [#define GETENTRYNAME(hdr,entry)]: where the name of a record lives,
    through the name table or inside the record itself. Both are host
    pointers and wrap around at the pointer width. *)
Definition GETENTRYNAME (B : Build) (mem : Memory) (p : Z) (hdr : AMX_HEADER)
  (entry : Z) : Z :=
  if USENAMETABLE B hdr
  then to_uintptr (ptr_size B)
         (p + to_uint (read_as (cell_size B) t_uint32 mem
                         (to_uintptr (ptr_size B)
                            (entry + offsetof (cell_size B) AMX_FUNCSTUBNT 1))))
  else to_uintptr (ptr_size B) (entry + offsetof (cell_size B) AMX_FUNCSTUB 1).

(** ** Address translation *)

(** [#define amx_Address(amx,addr)]: the sum, in [uintptr_t], of the data
    origin and [(uintptr_t)(addr)], cast to a cell pointer. The data origin
    is [(amx)->data] when that is not null and otherwise [(amx)->base] plus
    [(int)dat], with [dat] read from the header that [(amx)->base] points to. *)
Definition amx_Address (B : Build) (mem : Memory) (amx : AMX) (addr : Z) : Z :=
  to_uintptr (ptr_size B)
    (to_uintptr (ptr_size B)
       (if decide (data amx = NULL)
        then base amx + to_int (h_dat (read_header mem (base amx)))
        else data amx)
     + to_uintptr (ptr_size B) addr).

(** The bytes of the module image that [base] points to: the header, the
    code and the data, followed by the heap and the stack up to [stp]. *)
Definition in_image (amx : AMX) (hdr : AMX_HEADER) (p : Z) : Prop :=
  base amx <= p < base amx + h_stp hdr.

(** ** Entry points that the header declares *)

(** [#if defined __64BIT__ && PAWN_CELL_SIZE < 64 ... #elif defined __32BIT__
    && PAWN_CELL_SIZE < 32]: a host pointer does not fit in a cell. The
    second branch is taken only by a build that defines [__32BIT__] itself. *)
Definition AMX_DONT_RELOCATE (B : Build) : bool :=
  match ptr_size B, cell_size B with
  | Ptr64, Cell64 => false
  | Ptr64, _ => true
  | Ptr32, Cell16 => DEF_32BIT B
  | Ptr32, _ => false
  end.

(** The error of the first check that fails, in the order the checks are
    listed; [AMX_ERR_NONE] when every check passes. *)
Fixpoint first_failure (checks : list (bool * AMX_ERR)) : AMX_ERR :=
  match checks with
  | [] => AMX_ERR_NONE
  | (ok, e) :: rest => if ok then first_failure rest else e
  end.

Definition cell_aligned (W : CellSize) (x : Z) : bool :=
  x mod sizeof W t_cell =? 0.

(** Modelled from the spec: the version test inside [amx_Init], whose body
    is not in amx.h. The file version must lie between [MIN_FILE_VERSION]
    and [CUR_FILE_VERSION] and the module's AMX version must reach
    [MIN_AMX_VERSION]; a JIT build takes [MAX_FILE_VER_JIT], the file
    version the JIT supports, and [MIN_AMX_VER_JIT] instead. *)
Definition version_ok (B : Build) (hdr : AMX_HEADER) : bool :=
  if JIT B
  then (MIN_FILE_VERSION <=? h_file_version hdr)
       && (h_file_version hdr <=? MAX_FILE_VER_JIT)
       && (MIN_AMX_VER_JIT <=? h_amx_version hdr)
  else (MIN_FILE_VERSION <=? h_file_version hdr)
       && (h_file_version hdr <=? CUR_FILE_VERSION)
       && (MIN_AMX_VERSION <=? h_amx_version hdr).

(** Modelled from the spec: the section test inside [amx_Init]. The section
    offsets are ordered [cod <= dat <= hea <= stp] and all cell-aligned. *)
Definition sections_ok (B : Build) (hdr : AMX_HEADER) : bool :=
  (h_cod hdr <=? h_dat hdr) && (h_dat hdr <=? h_hea hdr)
  && (h_hea hdr <=? h_stp hdr)
  && cell_aligned (cell_size B) (h_cod hdr)
  && cell_aligned (cell_size B) (h_dat hdr)
  && cell_aligned (cell_size B) (h_hea hdr)
  && cell_aligned (cell_size B) (h_stp hdr).

(** Modelled from the spec: a table offset is zero (table absent) or lies
    between the end of the fixed header and the image size. *)
Definition table_offset_ok (hdr : AMX_HEADER) (off : Z) : bool :=
  (off =? 0)
  || ((sizeof_struct Cell32 AMX_HEADER_layout <=? off) && (off <=? h_size hdr)).

Definition tables_ok (hdr : AMX_HEADER) : bool :=
  forallb (table_offset_ok hdr)
    [ h_publics hdr; h_natives hdr; h_libraries hdr; h_pubvars hdr;
      h_tags hdr; h_nametable hdr ].

(** The two shapes a table record can have on disk. *)
Inductive RecordShape : Set := InlineName | NameTable.

Definition shape_struct (s : RecordShape) : struct :=
  match s with
  | InlineName => AMX_FUNCSTUB
  | NameTable => AMX_FUNCSTUBNT
  end.

(** Modelled from the spec: the record shape the loader picks from
    [defsize], which must be the size of one of the two record structures.
    The name-table test is the header's own [USENAMETABLE]. *)
Definition record_shape (B : Build) (hdr : AMX_HEADER) : option RecordShape :=
  if USENAMETABLE B hdr then Some NameTable
  else if h_defsize hdr =? sizeof_struct (cell_size B) AMX_FUNCSTUB
       then Some InlineName
       else None.

Definition defsize_ok (B : Build) (hdr : AMX_HEADER) : bool :=
  match record_shape B hdr with Some _ => true | None => false end.

(** Modelled from the spec: the validation that [amx_Init] performs on the
    header, in the stated order: magic, versions, section offsets, table
    offsets, record size. The prototype in amx.h passes no buffer length, so
    the length tests have nothing to compare against and are left out. *)
Definition validate (B : Build) (hdr : AMX_HEADER) : AMX_ERR :=
  first_failure
    [ (h_magic hdr =? AMX_MAGIC (cell_size B), AMX_ERR_FORMAT);
      (version_ok B hdr, AMX_ERR_VERSION);
      (sections_ok B hdr, AMX_ERR_FORMAT);
      (tables_ok hdr, AMX_ERR_FORMAT);
      (defsize_ok B hdr, AMX_ERR_FORMAT) ].

(** Modelled from the spec: the flags of a loaded instance. Operands are
    relocated, and [RELOC] set, unless a pointer does not fit in a cell or
    the module forces [NO_RELOC]. *)
Definition loaded_flags (B : Build) (hdr : AMX_HEADER) : Z :=
  if AMX_DONT_RELOCATE B || Z.testbit (h_flags hdr) 9
  then Z.lor (h_flags hdr) AMX_FLAG_NO_RELOC
  else Z.lor (h_flags hdr) AMX_FLAG_RELOC.

(** Modelled from the spec: the register setup at the end of [amx_Init].
    [hlw := hea := header.hea - header.dat];
    [stp := header.stp - header.dat - sizeof(cell)] (top slot reserved);
    [stk := stp]; [frm := stp]; [cip := header.cip]; the reset marks are
    captured from [hea] and [stk]. *)
Definition setup (B : Build) (amx : AMX) (program : Z) (hdr : AMX_HEADER) : AMX :=
  let h := h_hea hdr - h_dat hdr in
  let s := h_stp hdr - h_dat hdr - sizeof (cell_size B) t_cell in
  mkAMX program NULL (callback amx) (debug amx)
        (h_cip hdr) s h h s s (loaded_flags B hdr)
        (usertags amx) (userdata amx) (err_code AMX_ERR_NONE) 0 0 0 s h
        (sysreq_d amx).

(** Modelled from the spec: [amx_Init(amx, program)], declared in amx.h and
    defined elsewhere. A header that fails validation leaves the instance as
    it was. How a second [amx_Init] on the same instance is recognised is not
    stated; the model is of the first one. *)
Definition amx_Init (B : Build) (mem : Memory) (amx : AMX) (program : Z)
  : AMX_ERR * AMX :=
  let hdr := read_header mem program in
  match validate B hdr with
  | AMX_ERR_NONE => (AMX_ERR_NONE, setup B amx program hdr)
  | e => (e, amx)
  end.

(** Modelled from the spec: [amx_Push(amx, value)], declared in amx.h and
    defined elsewhere. Every push checks [stk - cell >= hea + STKMARGIN],
    fails with STACKERR otherwise, and on success moves [stk] down one cell
    and counts the parameter. The cell written at the new [stk] lies outside
    the instance record and is not tracked. *)
Definition amx_Push (B : Build) (amx : AMX) (value : Z) : AMX_ERR * AMX :=
  let c := sizeof (cell_size B) t_cell in
  if hea amx + STKMARGIN (cell_size B) <=? stk amx - c
  then (AMX_ERR_NONE,
        set_paramcount (set_stk amx (stk amx - c)) (paramcount amx + 1))
  else (AMX_ERR_STACKERR, amx).

(** Modelled from the spec: [amx_Allot(amx, cells, amx_addr, phys_addr)],
    declared in amx.h and defined elsewhere. It checks
    [hea + n*cell <= stk - STKMARGIN], fails with HEAPLOW otherwise, and on
    success hands out the old [hea] in both address forms and advances
    [hea]. *)
Definition amx_Allot (B : Build) (mem : Memory) (amx : AMX) (cells : Z)
  : AMX_ERR * AMX * option (Z * Z) :=
  let c := sizeof (cell_size B) t_cell in
  if hea amx + cells * c <=? stk amx - STKMARGIN (cell_size B)
  then (AMX_ERR_NONE, set_hea amx (hea amx + cells * c),
        Some (hea amx, amx_Address B mem amx (hea amx)))
  else (AMX_ERR_HEAPLOW, amx, None).




(** Modelled from the spec: the user-data slots, a closed keyed store of
    [AMX_USERNUM] entries. The structure has no occupancy field, so a slot
    whose tag is zero is a free one. *)
Definition find_slot (B : Build) (tag : Z) (tags : list Z) : option nat :=
  fst <$> list_find (fun t => t = tag) (take (AMX_USERNUM B) tags).

(** Modelled from the spec: [amx_SetUserData(amx, tag, ptr)], declared in
    amx.h and defined elsewhere. The slot that already carries the tag is
    overwritten; failing that a free slot is taken; failing that the call
    fails with USERDATA. *)
Definition amx_SetUserData (B : Build) (amx : AMX) (tag ptr : Z)
  : AMX_ERR * AMX :=
  let slot :=
    match find_slot B tag (usertags amx) with
    | Some i => Some i
    | None => find_slot B 0 (usertags amx)
    end in
  match slot with
  | Some i => (AMX_ERR_NONE,
               set_user amx (<[i := tag]> (usertags amx))
                            (<[i := ptr]> (userdata amx)))
  | None => (AMX_ERR_USERDATA, amx)
  end.

(** The slots in use: every element of the tag array that is not free. *)
Definition occupied (amx : AMX) : list Z :=
  filter (fun t => t <> 0) (usertags amx).

(** The arrays have the declared number of elements. *)
Definition user_wf (B : Build) (amx : AMX) : Prop :=
  length (usertags amx) = AMX_USERNUM B /\ length (userdata amx) = AMX_USERNUM B.

(** A host's calls of [amx_SetUserData] one after the other, each with its
    tag and pointer; a failing call leaves the instance as it was. *)
Definition set_user_data_all (B : Build) (amx : AMX) (calls : list (Z * Z))
  : AMX :=
  fold_left (fun a call => snd (amx_SetUserData B a (fst call) (snd call)))
            calls amx.

(** ** Sample modules *)

(** A 32-bit build with 32-bit pointers and the default four user slots. *)
Definition build32 : Build :=
  {| cell_size := Cell32; ptr_size := Ptr32; JIT := false; USERNUM := None;
     DEF_32BIT := false |}.

(** An instance structure cleared by the host. *)
Definition blank : AMX :=
  mkAMX NULL NULL NULL NULL 0 0 0 0 0 0 0 [0; 0; 0; 0] [0; 0; 0; 0]
        0 0 0 0 0 0 0.

(** A header for 32-bit cells: one public in name-table form at offset 56,
    code from 72, data from 120, heap from 160, stack top at 4256, main at
    code offset 8. *)
Definition sample_header : AMX_HEADER :=
  mkHeader 160 AMX_MAGIC_32 9 10 0 8 72 120 160 4256 8 56 64 64 64 64 64.

Definition with_magic (h : AMX_HEADER) (m : Z) : AMX_HEADER :=
  mkHeader (h_size h) m (h_file_version h) (h_amx_version h) (h_flags h)
    (h_defsize h) (h_cod h) (h_dat h) (h_hea h) (h_stp h) (h_cip h)
    (h_publics h) (h_natives h) (h_libraries h) (h_pubvars h) (h_tags h)
    (h_nametable h).

Definition with_defsize (h : AMX_HEADER) (d : Z) : AMX_HEADER :=
  mkHeader (h_size h) (h_magic h) (h_file_version h) (h_amx_version h)
    (h_flags h) d (h_cod h) (h_dat h) (h_hea h) (h_stp h) (h_cip h)
    (h_publics h) (h_natives h) (h_libraries h) (h_pubvars h) (h_tags h)
    (h_nametable h).

(** Where the sample images are loaded. *)
Definition sample_base : Z := 0x1000.

(** The image of a header followed by the one public record: code address
    16, name at offset 64. *)
Definition image_of (h : AMX_HEADER) : Memory :=
  mem_of_bytes sample_base (header_bytes h ++ bytes_le 4 16 ++ bytes_le 4 64).

Definition sample_image : Memory := image_of sample_header.

(** The sample module after [amx_Init]. *)
Definition sample_loaded : AMX :=
  snd (amx_Init build32 sample_image blank sample_base).

(** A header for 32-bit cells with three publics in name-table form at
    offset 56: the natives table starts at 80, code at 96, data at 136,
    heap at 176, stack top at 4272. *)
Definition table_header : AMX_HEADER :=
  mkHeader 176 AMX_MAGIC_32 9 10 0 8 96 136 176 4272 8 56 80 80 80 80 80.




(** The sample module loaded with a separate data region at 0x8000. *)
Definition sample_split : AMX :=
  mkAMX (base sample_loaded) 0x8000 (callback sample_loaded)
    (debug sample_loaded) (cip sample_loaded) (frm sample_loaded)
    (hea sample_loaded) (hlw sample_loaded) (stk sample_loaded)
    (stp sample_loaded) (flags sample_loaded) (usertags sample_loaded)
    (userdata sample_loaded) (error sample_loaded) (paramcount sample_loaded)
    (pri sample_loaded) (alt sample_loaded) (reset_stk sample_loaded)
    (reset_hea sample_loaded) (sysreq_d sample_loaded).

(** The sample module with every user slot taken. *)
Definition sample_full : AMX :=
  set_user sample_loaded [1; 2; 3; 4] [0x10; 0x20; 0x30; 0x40].

(** ** Further macros of the header *)

(** The type an expression over ucells is computed in: a 16-bit ucell is
    promoted to [int], wider ones stay unsigned of their own width. *)
Definition promoted (W : CellSize) (x : Z) : Z :=
  match W with
  | Cell16 => to_int x
  | _ => to_ucell W x
  end.

(** [#define UNPACKEDMAX (((ucell)1 << (sizeof(ucell)-1)*8) - 1)] *)
Definition UNPACKEDMAX (W : CellSize) : Z :=
  promoted W
    (promoted W (Z.shiftl (to_ucell W 1) ((sizeof W t_ucell - 1) * 8)) - 1).

(** [#define CHARBITS (8*sizeof(char))] *)
Definition CHARBITS : Z := 8 * sizeof Cell32 t_char.

(** [#define CHARMASK], one branch per cell size: [0xffffu], [0xffffffffuL]
    or [0xffffffffffffffffuLL] shifted left by all but one character of the
    cell, in the type the literal's suffix gives it. *)
Definition CHARMASK (W : CellSize) (L : LongSize) : Z :=
  match W with
  | Cell16 => to_uint (Z.shiftl 0xffff (8 * (2 - sizeof W t_char)))
  | Cell32 => to_unsigned (long_bits L)
                (Z.shiftl 0xffffffff (8 * (4 - sizeof W t_char)))
  | Cell64 => to_unsigned 64
                (Z.shiftl 0xffffffffffffffff (8 * (8 - sizeof W t_char)))
  end.

(** [#define amx_NumParams(params) ((params)[0] / (cell)sizeof(cell))] *)
Definition amx_NumParams (W : CellSize) (mem : Memory) (params : Z) : Z :=
  Z.quot (read_as W t_cell mem params) (to_cell W (sizeof W t_cell)).

(** The enumerator an [int] error code stands for, found in the table the
    enumeration declares; [None] for a value no enumerator has. *)
Definition err_of_code (v : Z) : option AMX_ERR :=
  (fun found => fst (snd found))
    <$> list_find (fun d => snd d = v) (enum_values 0 error_enum).

(** A name-table record as it lies in the image: the address, one ucell,
    then the 32-bit offset of the name. *)
Definition stubnt_bytes (W : CellSize) (address nameofs : Z) : list Z :=
  bytes_le (Z.to_nat (sizeof W t_ucell)) address ++ bytes_le 4 nameofs.

(** An inline-name record: the address, then the [sEXPMAX+1] bytes of the
    name field. *)
Definition stub_bytes (W : CellSize) (address : Z) (name : list Z) : list Z :=
  bytes_le (Z.to_nat (sizeof W t_ucell)) address
  ++ take (sEXPMAX + 1) (name ++ replicate (sEXPMAX + 1) 0).

(** The bytes of memory from [addr] on, [n] of them. *)
Fixpoint bytes_at (mem : Memory) (addr : Z) (n : nat) : list Z :=
  match n with
  | O => []
  | S k => mem addr mod 256 :: bytes_at mem (addr + 1) k
  end.

(** The members [fs] are what memory holds from [addr] on: each value agrees
    with the little-endian number stored in its bytes, up to the width of
    the member. *)
Fixpoint stored_at (mem : Memory) (addr : Z) (fs : list (nat * Z)) : Prop :=
  match fs with
  | [] => True
  | (n, x) :: rest =>
      x mod 256 ^ Z.of_nat n = read_le mem addr n
      /\ stored_at mem (addr + Z.of_nat n) rest
  end.

(** A memory cut off after the 56 bytes of the header at [p]. *)
Definition header_only (mem : Memory) (p : Z) : Memory :=
  fun a => if a <? p + 56 then mem a else 0.

Definition with_flags (h : AMX_HEADER) (v : Z) : AMX_HEADER :=
  mkHeader (h_size h) (h_magic h) (h_file_version h) (h_amx_version h)
    v (h_defsize h) (h_cod h) (h_dat h) (h_hea h) (h_stp h) (h_cip h)
    (h_publics h) (h_natives h) (h_libraries h) (h_pubvars h) (h_tags h)
    (h_nametable h).

(** The parameter block of a native called with the arguments 10, 20, 30. *)
Definition sample_params : Memory :=
  mem_of_bytes 0x2000
    (bytes_le 4 12 ++ bytes_le 4 10 ++ bytes_le 4 20 ++ bytes_le 4 30).

(** * Properties *)

(** ** Integer conversions *)

Lemma to_signed_range (bits x : Z) :
  0 < bits -> - 2 ^ (bits - 1) <= to_signed bits x < 2 ^ (bits - 1).
Proof.
  intros Hb. unfold to_signed.
  assert (H2 : 2 ^ bits = 2 * 2 ^ (bits - 1)).
  { replace bits with (Z.succ (bits - 1)) at 1 by lia.
    rewrite Z.pow_succ_r by lia. reflexivity. }
  assert (Hp : 0 < 2 ^ (bits - 1)) by (apply Z.pow_pos_nonneg; lia).
  pose proof (Z.mod_pos_bound (x + 2 ^ (bits - 1)) (2 ^ bits)). lia.
Qed.

Lemma to_signed_small (bits x : Z) :
  0 < bits -> - 2 ^ (bits - 1) <= x < 2 ^ (bits - 1) -> to_signed bits x = x.
Proof.
  intros Hb Hx. unfold to_signed.
  assert (H2 : 2 ^ bits = 2 * 2 ^ (bits - 1)).
  { replace bits with (Z.succ (bits - 1)) at 1 by lia.
    rewrite Z.pow_succ_r by lia. reflexivity. }
  rewrite Z.mod_small by lia. lia.
Qed.

Lemma to_unsigned_range (bits x : Z) :
  0 <= bits -> 0 <= to_unsigned bits x < 2 ^ bits.
Proof.
  intros Hb. unfold to_unsigned. apply Z.mod_pos_bound.
  apply Z.pow_pos_nonneg; lia.
Qed.

Lemma to_unsigned_add (bits x y : Z) :
  0 <= bits ->
  to_unsigned bits (to_unsigned bits x + to_unsigned bits y)
  = to_unsigned bits (x + y).
Proof.
  intros Hb. unfold to_unsigned. symmetry. apply Z.add_mod.
  apply Z.pow_nonzero; lia.
Qed.

Lemma ptr_bits_pos (P : PtrSize) : 0 < ptr_bits P.
Proof. destruct P; reflexivity. Qed.

Lemma sizeof_cell_pos (W : CellSize) : 0 < sizeof W t_cell.
Proof. destruct W; reflexivity. Qed.

Lemma to_uint_small (x : Z) : 0 <= x < 2 ^ 32 -> to_uint x = x.
Proof. intros H. unfold to_uint, to_unsigned. apply Z.mod_small, H. Qed.

Lemma to_int_small (x : Z) : - 2 ^ 31 <= x < 2 ^ 31 -> to_int x = x.
Proof. intros H. apply (to_signed_small 32); [lia | exact H]. Qed.

Lemma to_signed_mod (bits w : Z) :
  0 < bits -> to_signed bits w mod 2 ^ bits = w mod 2 ^ bits.
Proof.
  intros Hb. unfold to_signed.
  rewrite Zminus_mod_idemp_l. f_equal. lia.
Qed.

Lemma to_signed_high (bits x : Z) :
  0 < bits -> 2 ^ (bits - 1) <= x < 2 ^ bits ->
  to_signed bits x = x - 2 ^ bits.
Proof.
  intros Hb Hx. unfold to_signed.
  assert (Hp : 2 ^ bits = 2 * 2 ^ (bits - 1)).
  { rewrite <- Z.pow_succ_r by lia. f_equal. lia. }
  rewrite <- (Z.mod_unique (x + 2 ^ (bits - 1)) (2 ^ bits) 1
                (x - 2 ^ (bits - 1))) by lia.
  lia.
Qed.

Lemma to_uintptr_small (P : PtrSize) (x : Z) :
  0 <= x < 2 ^ ptr_bits P -> to_uintptr P x = x.
Proof. intros H. unfold to_uintptr, to_unsigned. apply Z.mod_small, H. Qed.

(** ** Bit patterns *)

Lemma testbit_above (a k i : Z) :
  0 <= a < 2 ^ k -> k <= i -> Z.testbit a i = false.
Proof.
  intros [Ha Hlt] Hi.
  destruct (Z.eq_dec a 0) as [-> | Hne]; [apply Z.bits_0 |].
  apply Z.bits_above_log2; [exact Ha |].
  assert (Hk : 0 <= k).
  { destruct (Z.lt_ge_cases k 0) as [Hneg | Hk]; [| exact Hk].
    rewrite Z.pow_neg_r in Hlt by exact Hneg. lia. }
  assert (Z.log2 a < k) by (apply Z.log2_lt_pow2; lia). lia.
Qed.

Lemma land_low_shift (a b k : Z) :
  0 <= k -> 0 <= a < 2 ^ k -> Z.land a (Z.shiftl b k) = 0.
Proof.
  intros Hk Ha. apply Z.bits_inj'. intros i Hi.
  rewrite Z.land_spec, Z.bits_0.
  destruct (Z.lt_ge_cases i k) as [Hlt | Hge].
  - rewrite Z.shiftl_spec_low by exact Hlt. apply andb_false_r.
  - rewrite (testbit_above a k i Ha Hge). reflexivity.
Qed.

(** A character cut out of the low [n] bits of a word does not depend on
    the bits above them. *)
Lemma char_of_low_bits (x k n : Z) :
  0 <= k -> k + 8 <= n ->
  Z.land (Z.shiftr x k) (Z.ones 8) = Z.land (Z.shiftr (x mod 2 ^ n) k) (Z.ones 8).
Proof.
  intros Hk Hn. apply Z.bits_inj'. intros i Hi.
  rewrite !Z.land_spec, !Z.shiftr_spec by exact Hi.
  destruct (Z.lt_ge_cases i 8) as [Hlt | Hge].
  - rewrite Z.mod_pow2_bits_low by lia. reflexivity.
  - rewrite Z.ones_spec_high by lia. rewrite !andb_false_r. reflexivity.
Qed.

(** ** Reading the header *)

Lemma read_le_ext (m1 m2 : Memory) (n : nat) :
  forall addr, (forall a, addr <= a -> m1 a = m2 a) ->
  read_le m1 addr n = read_le m2 addr n.
Proof.
  induction n as [| n IH]; intros addr H; simpl; [reflexivity |].
  rewrite (H addr) by lia. rewrite (IH (addr + 1)); [reflexivity |].
  intros a Ha. apply H. lia.
Qed.

Lemma mem_of_bytes_skip (p : Z) (pre l : list Z) (a : Z) :
  p + Z.of_nat (length pre) <= a ->
  mem_of_bytes p (pre ++ l) a = mem_of_bytes (p + Z.of_nat (length pre)) l a.
Proof.
  intros Ha. unfold mem_of_bytes.
  destruct (Z.leb_spec p a); [| lia].
  destruct (Z.leb_spec (p + Z.of_nat (length pre)) a); [| lia].
  rewrite app_nth2 by lia. f_equal. lia.
Qed.

Lemma read_le_bytes (n : nat) :
  forall (p x : Z) (post : list Z),
    read_le (mem_of_bytes p (bytes_le n x ++ post)) p n = x mod 256 ^ Z.of_nat n.
Proof.
  induction n as [| n IH]; intros p x post.
  - simpl. rewrite Z.mod_1_r. reflexivity.
  - cbn [read_le bytes_le].
    assert (Hhd : mem_of_bytes p ((x mod 256 :: bytes_le n (x / 256)) ++ post) p
                  = x mod 256).
    { unfold mem_of_bytes. rewrite Z.leb_refl, Z.sub_diag. reflexivity. }
    rewrite Hhd.
    rewrite (read_le_ext _ (mem_of_bytes (p + 1) (bytes_le n (x / 256) ++ post))).
    + rewrite IH. rewrite Nat2Z.inj_succ, Z.pow_succ_r by lia.
      rewrite Z.rem_mul_r by lia. rewrite Z.mod_mod by lia. reflexivity.
    + intros a Ha.
      apply (mem_of_bytes_skip p [x mod 256] (bytes_le n (x / 256) ++ post) a).
      simpl. lia.
Qed.

Lemma read_le_skip (p : Z) (pre l : list Z) (n : nat) (addr : Z) :
  p + Z.of_nat (length pre) <= addr ->
  read_le (mem_of_bytes p (pre ++ l)) addr n
  = read_le (mem_of_bytes (p + Z.of_nat (length pre)) l) addr n.
Proof.
  intros Ha. apply read_le_ext. intros a Hle. apply mem_of_bytes_skip. lia.
Qed.

Lemma read_le_field (rest : list Z) (fs : list (nat * Z)) :
  forall (p : Z) (i n : nat) (x : Z),
    fs !! i = Some (n, x) ->
    read_le (mem_of_bytes p (encode fs ++ rest))
            (p + Z.of_nat (length (encode (take i fs)))) n
    = x mod 256 ^ Z.of_nat n.
Proof.
  induction fs as [| f fs IH]; intros p i n x Hi; [discriminate |].
  destruct i as [| i].
  - injection Hi as ->. cbn [take encode flat_map length fst snd].
    rewrite Z.add_0_r, <- app_assoc. apply read_le_bytes.
  - cbn [take encode flat_map]. fold (encode fs). fold (encode (take i fs)).
    rewrite <- app_assoc, length_app, Nat2Z.inj_add, Z.add_assoc.
    rewrite read_le_skip by lia.
    apply IH. exact Hi.
Qed.

Lemma to_signed_of_mod (bits x : Z) :
  0 < bits -> - 2 ^ (bits - 1) <= x < 2 ^ (bits - 1) ->
  to_signed bits (x mod 2 ^ bits) = x.
Proof.
  intros Hb Hx. unfold to_signed.
  assert (H2 : 2 ^ bits = 2 * 2 ^ (bits - 1)).
  { replace bits with (Z.succ (bits - 1)) at 1 by lia.
    rewrite Z.pow_succ_r by lia. reflexivity. }
  rewrite Zplus_mod_idemp_l. rewrite Z.mod_small by lia. lia.
Qed.

Lemma header_member_bytes (h : AMX_HEADER) (rest : list Z) (p : Z) (i : nat)
  (t : ctype) (n : nat) (x : Z) :
  AMX_HEADER_layout !! i = Some t ->
  header_fields h !! i = Some (n, x) ->
  Z.of_nat n = sizeof Cell32 t -> 0 < sizeof Cell32 t ->
  offsetof Cell32 AMX_HEADER_layout i
  = Z.of_nat (length (encode (take i (header_fields h)))) ->
  fits t x ->
  header_member (mem_of_bytes p (encode (header_fields h) ++ rest)) p i = x.
Proof.
  intros Ht Hf Hn Hpos Hoff Hfit. unfold header_member, read_as.
  rewrite (nth_lookup_Some _ _ _ _ Ht). rewrite Hoff, <- Hn, Nat2Z.id.
  rewrite (read_le_field rest _ p i n x Hf).
  replace (256 ^ Z.of_nat n) with (2 ^ (8 * Z.of_nat n)).
  2:{ rewrite Z.pow_mul_r by lia. reflexivity. }
  unfold fits in Hfit. rewrite <- Hn in Hfit. destruct (is_signed t).
  - apply to_signed_of_mod; [lia | exact Hfit].
  - apply Z.mod_small. exact Hfit.
Qed.

(** Reading back the header that was written: the reader inverts the
    packed little-endian layout. *)
Lemma read_header_bytes (h : AMX_HEADER) (rest : list Z) (p : Z) :
  header_wf h ->
  read_header (mem_of_bytes p (header_bytes h ++ rest)) p = h.
Proof.
  intros Hwf. unfold header_wf in Hwf.
  destruct h as [sz mg fv av fl ds cd dt he st ci pb nv lb pv tg nt].
  unfold header_fields, AMX_HEADER_layout in Hwf.
  cbn [map snd h_size h_magic h_file_version h_amx_version h_flags h_defsize
       h_cod h_dat h_hea h_stp h_cip h_publics h_natives h_libraries
       h_pubvars h_tags h_nametable] in Hwf.
  repeat match goal with
         | H : Forall2 _ (_ :: _) (_ :: _) |- _ =>
             apply Forall2_cons_1 in H; destruct H as [? H]
         end.
  unfold read_header, header_bytes.
  f_equal;
    (eapply header_member_bytes;
     [ reflexivity | reflexivity | reflexivity | reflexivity | reflexivity
     | assumption ]).
Qed.

(** The [defsize] member is an [int16_t], whatever the memory holds. *)
Lemma read_header_defsize_range (mem : Memory) (p : Z) :
  - 2 ^ 15 <= h_defsize (read_header mem p) < 2 ^ 15.
Proof.
  unfold read_header, header_member, read_as; simpl h_defsize.
  change (is_signed (nth 5 AMX_HEADER_layout t_char)) with true.
  change (8 * sizeof Cell32 (nth 5 AMX_HEADER_layout t_char)) with 16.
  cbv iota. apply (to_signed_range 16). lia.
Qed.

(** In [size_t], a 16-bit [defsize] equals a record size only when it does
    as an integer. *)
Lemma defsize_in_size_t (P : PtrSize) (d sz : Z) :
  - 2 ^ 15 <= d < 2 ^ 15 -> 0 <= sz < 2 ^ 15 ->
  (to_uintptr P d =? sz) = (d =? sz).
Proof.
  intros Hd Hs. unfold to_uintptr, to_unsigned.
  destruct (Z.ltb_spec d 0) as [Hneg | Hpos].
  - assert (Hm : d mod 2 ^ ptr_bits P = d + 2 ^ ptr_bits P).
    { symmetry. apply (Z.mod_unique _ _ (-1)); destruct P; simpl ptr_bits; lia. }
    rewrite Hm.
    destruct (Z.eqb_spec (d + 2 ^ ptr_bits P) sz) as [E | _];
      destruct (Z.eqb_spec d sz) as [E' | _]; try reflexivity;
      destruct P; simpl ptr_bits in *; lia.
  - rewrite Z.mod_small; [reflexivity |]. destruct P; simpl ptr_bits; lia.
Qed.

Lemma sizeof_stub_range (W : CellSize) (s : RecordShape) :
  0 <= sizeof_struct W (shape_struct s) < 2 ^ 15.
Proof. destruct W, s; vm_compute; split; congruence. Qed.

Lemma USENAMETABLE_spec (B : Build) (mem : Memory) (p : Z) :
  USENAMETABLE B (read_header mem p) = true
  <-> h_defsize (read_header mem p) = sizeof_struct (cell_size B) AMX_FUNCSTUBNT.
Proof.
  unfold USENAMETABLE.
  rewrite defsize_in_size_t.
  - apply Z.eqb_eq.
  - apply read_header_defsize_range.
  - apply (sizeof_stub_range (cell_size B) NameTable).
Qed.

(** ** What a rejected header leaves behind *)

Lemma amx_Init_cases (B : Build) (mem : Memory) (amx : AMX) (program : Z) :
  let hdr := read_header mem program in
  (validate B hdr = AMX_ERR_NONE
   /\ amx_Init B mem amx program = (AMX_ERR_NONE, setup B amx program hdr))
  \/ (validate B hdr <> AMX_ERR_NONE
      /\ amx_Init B mem amx program = (validate B hdr, amx)).
Proof.
  intros hdr. unfold amx_Init. fold hdr.
  destruct (validate B hdr); (left; split; [reflexivity | reflexivity])
                           || (right; split; [discriminate | reflexivity]).
Qed.

Lemma validate_ok_iff (B : Build) (hdr : AMX_HEADER) :
  validate B hdr = AMX_ERR_NONE
  <-> (h_magic hdr =? AMX_MAGIC (cell_size B)) = true
      /\ version_ok B hdr = true /\ sections_ok B hdr = true
      /\ tables_ok hdr = true /\ defsize_ok B hdr = true.
Proof.
  unfold validate, first_failure.
  destruct (h_magic hdr =? AMX_MAGIC (cell_size B)), (version_ok B hdr),
    (sections_ok B hdr), (tables_ok hdr), (defsize_ok B hdr);
    split; intros H; try discriminate; try reflexivity;
    try (repeat split; reflexivity);
    destruct H as (? & ? & ? & ? & ?); discriminate.
Qed.

(** ** Error codes and flag bits *)

(** C3: the error enumerators fall into two numeric bands. NONE is 0; EXIT
    to INVSTATE are, in declaration order, 1 to 13, all inside the reserved
    range 1..15; MEMORY to GENERAL are, in declaration order, the
    consecutive values from 16 on. *)
Theorem error_code_bands :
  let exits :=
    [ AMX_ERR_EXIT; AMX_ERR_ASSERT; AMX_ERR_STACKERR; AMX_ERR_BOUNDS;
      AMX_ERR_MEMACCESS; AMX_ERR_INVINSTR; AMX_ERR_STACKLOW; AMX_ERR_HEAPLOW;
      AMX_ERR_CALLBACK; AMX_ERR_NATIVE; AMX_ERR_DIVIDE; AMX_ERR_SLEEP;
      AMX_ERR_INVSTATE ] in
  let library :=
    [ AMX_ERR_MEMORY; AMX_ERR_FORMAT; AMX_ERR_VERSION; AMX_ERR_NOTFOUND;
      AMX_ERR_INDEX; AMX_ERR_DEBUG; AMX_ERR_INIT; AMX_ERR_USERDATA;
      AMX_ERR_INIT_JIT; AMX_ERR_PARAMS; AMX_ERR_DOMAIN; AMX_ERR_GENERAL ] in
  map fst error_enum = AMX_ERR_NONE :: exits ++ library
  /\ err_code AMX_ERR_NONE = 0
  /\ map err_code exits = [1; 2; 3; 4; 5; 6; 7; 8; 9; 10; 11; 12; 13]
  /\ Forall (fun e => 1 <= err_code e <= 15) exits
  /\ map err_code library = [16; 17; 18; 19; 20; 21; 22; 23; 24; 25; 26; 27].
Proof.
  cbv zeta. repeat split; try reflexivity.
  repeat constructor; vm_compute; congruence.
Qed.

(** C7: the eleven flag macros have the values DEBUG 0x02, COMPACT 0x04,
    SLEEP 0x08, NOCHECKS 0x10, NO_RELOC 0x200, NO_SYSREQD 0x400, SYSREQN
    0x800, NTVREG 0x1000, JITC 0x2000, BROWSE 0x4000, RELOC 0x8000; each is
    a single bit and no two share a bit. *)
Theorem flag_bits :
  AMX_FLAG_DEBUG = 0x02 /\ AMX_FLAG_COMPACT = 0x04 /\ AMX_FLAG_SLEEP = 0x08
  /\ AMX_FLAG_NOCHECKS = 0x10 /\ AMX_FLAG_NO_RELOC = 0x200
  /\ AMX_FLAG_NO_SYSREQD = 0x400 /\ AMX_FLAG_SYSREQN = 0x800
  /\ AMX_FLAG_NTVREG = 0x1000 /\ AMX_FLAG_JITC = 0x2000
  /\ AMX_FLAG_BROWSE = 0x4000 /\ AMX_FLAG_RELOC = 0x8000
  /\ length amx_flags = 11%nat
  /\ Forall single_bit amx_flags
  /\ pairwise_disjoint amx_flags.
Proof.
  repeat (split; [reflexivity |]). split.
  - unfold amx_flags.
    repeat (constructor;
            [ match goal with
              | |- single_bit ?x => exists (Z.log2 x); vm_compute; split; congruence
              end | ]).
    constructor.
  - simpl pairwise_disjoint. repeat split; repeat constructor.
Qed.

(** ** The loader's header checks *)

(** C4: the magic the loader accepts is fixed by the cell width: 0xF1E2 for
    16-bit, 0xF1E0 for 32-bit and 0xF1E1 for 64-bit cells, three different
    values; a module carrying any other magic than the build's own, the
    magic of another cell width included, is rejected, with FORMAT and
    without touching the instance. *)
Theorem magic_by_cell_width :
  AMX_MAGIC Cell16 = 0xF1E2 /\ AMX_MAGIC Cell32 = 0xF1E0
  /\ AMX_MAGIC Cell64 = 0xF1E1
  /\ (forall W1 W2, AMX_MAGIC W1 = AMX_MAGIC W2 -> W1 = W2)
  /\ (forall B mem amx program,
        h_magic (read_header mem program) <> AMX_MAGIC (cell_size B) ->
        amx_Init B mem amx program = (AMX_ERR_FORMAT, amx))
  /\ (forall B W mem amx program,
        W <> cell_size B ->
        h_magic (read_header mem program) = AMX_MAGIC W ->
        amx_Init B mem amx program = (AMX_ERR_FORMAT, amx)).
Proof.
  assert (Hinj : forall W1 W2, AMX_MAGIC W1 = AMX_MAGIC W2 -> W1 = W2).
  { intros [] []; vm_compute; congruence. }
  assert (Hrej : forall B mem amx program,
             h_magic (read_header mem program) <> AMX_MAGIC (cell_size B) ->
             amx_Init B mem amx program = (AMX_ERR_FORMAT, amx)).
  { intros B mem amx program Hne. unfold amx_Init, validate, first_failure.
    destruct (Z.eqb_spec (h_magic (read_header mem program))
                         (AMX_MAGIC (cell_size B))) as [E | _];
      [contradiction | reflexivity]. }
  repeat split; try reflexivity; auto.
  intros B W mem amx program HW Hm. apply Hrej.
  rewrite Hm. intros E. apply HW, Hinj, E.
Qed.

(** C6: a table record has one of two shapes. The inline-name record is a
    ucell address followed by a name of sEXPMAX+1 = 20 bytes, the name-table
    record is a ucell address followed by a 32-bit name offset. The
    name-table shape is in use exactly when defsize is the size of the
    name-table record, the inline shape exactly when it is the size of the
    inline record, and a module whose defsize is neither is rejected at
    load, the instance left as it was. *)
Theorem record_shapes :
  sEXPMAX = 19%nat
  /\ shape_struct InlineName = [t_ucell; t_array t_char 20]
  /\ shape_struct NameTable = [t_ucell; t_uint32]
  /\ (forall s : RecordShape, s = InlineName \/ s = NameTable)
  /\ (forall W, sizeof_struct W AMX_FUNCSTUB = sizeof W t_ucell + 20
                /\ sizeof_struct W AMX_FUNCSTUBNT = sizeof W t_ucell + 4)
  /\ (forall B mem p,
        let hdr := read_header mem p in
        (USENAMETABLE B hdr = true
         <-> h_defsize hdr = sizeof_struct (cell_size B) AMX_FUNCSTUBNT)
        /\ (record_shape B hdr = Some NameTable
            <-> h_defsize hdr = sizeof_struct (cell_size B) AMX_FUNCSTUBNT)
        /\ (record_shape B hdr = Some InlineName
            <-> h_defsize hdr = sizeof_struct (cell_size B) AMX_FUNCSTUB))
  /\ (forall B mem amx program,
        let hdr := read_header mem program in
        h_defsize hdr <> sizeof_struct (cell_size B) AMX_FUNCSTUB ->
        h_defsize hdr <> sizeof_struct (cell_size B) AMX_FUNCSTUBNT ->
        fst (amx_Init B mem amx program) <> AMX_ERR_NONE
        /\ snd (amx_Init B mem amx program) = amx).
Proof.
  assert (Hshape : forall B mem p,
             let hdr := read_header mem p in
             (record_shape B hdr = Some NameTable
              <-> h_defsize hdr = sizeof_struct (cell_size B) AMX_FUNCSTUBNT)
             /\ (record_shape B hdr = Some InlineName
                 <-> h_defsize hdr = sizeof_struct (cell_size B) AMX_FUNCSTUB)).
  { intros B mem p hdr. unfold record_shape.
    pose proof (USENAMETABLE_spec B mem p) as Hu. fold hdr in Hu.
    destruct (USENAMETABLE B hdr) eqn:Eu.
    - assert (Hd : h_defsize hdr = sizeof_struct (cell_size B) AMX_FUNCSTUBNT)
        by (apply Hu; reflexivity).
      split; split; intros H; try reflexivity; try assumption; try discriminate.
      rewrite Hd in H. destruct (cell_size B); vm_compute in H; discriminate.
    - assert (Hd : h_defsize hdr <> sizeof_struct (cell_size B) AMX_FUNCSTUBNT)
        by (intros E; apply Hu in E; discriminate).
      destruct (Z.eqb_spec (h_defsize hdr)
                  (sizeof_struct (cell_size B) AMX_FUNCSTUB)) as [E | NE];
        split; split; intros H; try reflexivity; try assumption;
        try discriminate; try contradiction. }
  split; [reflexivity |]. split; [reflexivity |]. split; [reflexivity |].
  split; [intros []; auto |].
  split; [intros []; split; reflexivity |].
  split.
  - intros B mem p hdr. split; [apply USENAMETABLE_spec | apply Hshape].
  - intros B mem amx program hdr Hn1 Hn2.
    assert (Hnone : record_shape B hdr = None).
    { destruct (Hshape B mem program) as [H1 H2]. fold hdr in H1, H2.
      destruct (record_shape B hdr) as [[] |] eqn:E; try reflexivity.
      - exfalso. apply Hn1, H2. reflexivity.
      - exfalso. apply Hn2, H1. reflexivity. }
    destruct (amx_Init_cases B mem amx program) as [[Hv _] | [Hv Hi]].
    + apply validate_ok_iff in Hv. destruct Hv as (_ & _ & _ & _ & Hd).
      fold hdr in Hd. unfold defsize_ok in Hd. rewrite Hnone in Hd. discriminate.
    + rewrite Hi. split; [exact Hv | reflexivity].
Qed.

(** ** Stack and heap margins *)

(** C2: a push succeeds exactly when stk minus one cell is at least hea plus
    STKMARGIN and fails with STACKERR otherwise; allot(n) succeeds exactly
    when hea plus n cells is at most stk minus STKMARGIN, then advances hea
    by n cells, and leaves the instance, hea included, as it was when it
    fails; STKMARGIN is 16 cells, 16*sizeof(cell) bytes. *)
Theorem push_allot_margin :
  (forall B amx v,
      let c := sizeof (cell_size B) t_cell in
      (fst (amx_Push B amx v) = AMX_ERR_NONE
       <-> stk amx - c >= hea amx + STKMARGIN (cell_size B))
      /\ (fst (amx_Push B amx v) <> AMX_ERR_NONE ->
          amx_Push B amx v = (AMX_ERR_STACKERR, amx))
      /\ (fst (amx_Push B amx v) = AMX_ERR_NONE ->
          stk (snd (amx_Push B amx v)) = stk amx - c
          /\ hea (snd (amx_Push B amx v)) = hea amx))
  /\ (forall B mem amx n,
        let c := sizeof (cell_size B) t_cell in
        let r := amx_Allot B mem amx n in
        (fst (fst r) = AMX_ERR_NONE
         <-> hea amx + n * c <= stk amx - STKMARGIN (cell_size B))
        /\ (fst (fst r) = AMX_ERR_NONE ->
            hea (snd (fst r)) = hea amx + n * c
            /\ snd r = Some (hea amx, amx_Address B mem amx (hea amx)))
        /\ (fst (fst r) <> AMX_ERR_NONE ->
            snd (fst r) = amx /\ hea (snd (fst r)) = hea amx))
  /\ (forall W, STKMARGIN W = 16 * sizeof W t_cell
                /\ sizeof W t_cell = PAWN_CELL_SIZE W / 8
                /\ STKMARGIN W = 16 * (PAWN_CELL_SIZE W / 8)).
Proof.
  split; [| split].
  - intros B amx v c. unfold amx_Push. fold c.
    destruct (Z.leb_spec (hea amx + STKMARGIN (cell_size B)) (stk amx - c));
      simpl; repeat split; intros; try lia; try congruence.
  - intros B mem amx n c r. unfold r, amx_Allot. fold c.
    destruct (Z.leb_spec (hea amx + n * c) (stk amx - STKMARGIN (cell_size B)));
      simpl; repeat split; intros; try lia; try congruence.
  - intros []; repeat split; reflexivity.
Qed.

(** ** Address translation *)

Lemma to_signed_idem (bits x : Z) :
  0 < bits -> to_signed bits (to_signed bits x) = to_signed bits x.
Proof. intros Hb. apply to_signed_small, to_signed_range; assumption. Qed.

(** The [dat] member is an [int32_t]; the cast to [int] keeps it. *)
Lemma read_header_dat_int (mem : Memory) (p : Z) :
  to_int (h_dat (read_header mem p)) = h_dat (read_header mem p).
Proof.
  unfold read_header, header_member, read_as; simpl h_dat.
  change (is_signed (nth 7 AMX_HEADER_layout t_char)) with true.
  change (8 * sizeof Cell32 (nth 7 AMX_HEADER_layout t_char)) with 32.
  cbv iota. apply (to_signed_idem 32). lia.
Qed.

Lemma amx_Address_mod (B : Build) (mem : Memory) (amx : AMX) (addr : Z) :
  amx_Address B mem amx addr
  = ((if decide (data amx = NULL)
      then base amx + h_dat (read_header mem (base amx))
      else data amx) + addr) mod 2 ^ ptr_bits (ptr_size B).
Proof.
  unfold amx_Address, to_uintptr.
  rewrite read_header_dat_int.
  rewrite to_unsigned_add by (pose proof (ptr_bits_pos (ptr_size B)); lia).
  reflexivity.
Qed.

(** C10: amx_Address resolves a script address to data + addr when the
    separate data pointer is not NULL and to base + header.dat + addr when
    it is NULL, the sums being taken in uintptr_t, that is exactly whenever
    they are host addresses. The image runs from base to the stack top, so
    the data-relative addresses are those below stp - dat, heap and stack
    included; for every one of them, and a separate region of that size
    that does not overlap the image, the result falls in the shared image
    exactly when no separate region is attached. *)
Theorem address_resolution :
  forall B mem amx addr,
    let hdr := read_header mem (base amx) in
    let M := 2 ^ ptr_bits (ptr_size B) in
    (data amx <> NULL ->
     amx_Address B mem amx addr = (data amx + addr) mod M)
    /\ (data amx = NULL ->
        amx_Address B mem amx addr = (base amx + h_dat hdr + addr) mod M)
    /\ (data amx <> NULL -> 0 <= data amx + addr < M ->
        amx_Address B mem amx addr = data amx + addr)
    /\ (data amx = NULL -> 0 <= base amx + h_dat hdr + addr < M ->
        amx_Address B mem amx addr = base amx + h_dat hdr + addr)
    /\ (0 <= base amx -> base amx + h_stp hdr <= M -> 0 <= h_dat hdr ->
        0 <= addr < h_stp hdr - h_dat hdr ->
        (data amx <> NULL ->
         0 <= data amx /\ data amx + (h_stp hdr - h_dat hdr) <= M
         /\ (data amx + (h_stp hdr - h_dat hdr) <= base amx
             \/ base amx + h_stp hdr <= data amx)) ->
        (in_image amx hdr (amx_Address B mem amx addr) <-> data amx = NULL)).
Proof.
  intros B mem amx addr hdr M.
  rewrite amx_Address_mod. fold hdr. fold M.
  destruct (decide (data amx = NULL)) as [E | NE].
  - split; [intros H; contradiction |].
    split; [intros _; reflexivity |].
    split; [intros H; contradiction |].
    split; [intros _ Hr; apply Z.mod_small; exact Hr |].
    intros Hb Hsz Hdat Hin _. rewrite Z.mod_small by lia. unfold in_image.
    split; [intros _; exact E | intros _; lia].
  - split; [intros _; reflexivity |].
    split; [intros H; contradiction |].
    split; [intros _ Hr; apply Z.mod_small; exact Hr |].
    split; [intros H; contradiction |].
    intros Hb Hsz Hdat Hin Hsep. destruct (Hsep NE) as (Hd0 & Hd1 & Hout).
    rewrite Z.mod_small by lia. unfold in_image.
    split; [intros Hi; exfalso; lia | intros E; contradiction].
Qed.

(** ** User data *)

Lemma find_slot_None (B : Build) (tag : Z) (tags : list Z) :
  find_slot B tag tags = None
  <-> Forall (fun t => t <> tag) (take (AMX_USERNUM B) tags).
Proof.
  unfold find_slot. rewrite fmap_None. apply list_find_None.
Qed.

Lemma find_slot_Some (B : Build) (tag : Z) (tags : list Z) (i : nat) :
  find_slot B tag tags = Some i ->
  tags !! i = Some tag /\ (i < AMX_USERNUM B)%nat.
Proof.
  unfold find_slot. intros H. apply fmap_Some in H.
  destruct H as ([j x] & Hf & ->). simpl.
  apply list_find_Some in Hf. destruct Hf as (Hl & -> & _).
  apply lookup_take_Some in Hl. exact Hl.
Qed.

Lemma amx_SetUserData_cases (B : Build) (amx : AMX) (tag ptr : Z) :
  (exists i, (i < AMX_USERNUM B)%nat
             /\ amx_SetUserData B amx tag ptr
                = (AMX_ERR_NONE,
                   set_user amx (<[i := tag]> (usertags amx))
                                (<[i := ptr]> (userdata amx))))
  \/ (find_slot B tag (usertags amx) = None
      /\ find_slot B 0 (usertags amx) = None
      /\ amx_SetUserData B amx tag ptr = (AMX_ERR_USERDATA, amx)).
Proof.
  unfold amx_SetUserData.
  destruct (find_slot B tag (usertags amx)) as [i |] eqn:E1.
  - left. exists i. split; [apply (find_slot_Some _ _ _ _ E1) | reflexivity].
  - destruct (find_slot B 0 (usertags amx)) as [i |] eqn:E2.
    + left. exists i. split; [apply (find_slot_Some _ _ _ _ E2) | reflexivity].
    + right. auto.
Qed.

Lemma Forall_other_tags (tag : Z) (tags : list Z) :
  Forall (fun t => t <> 0 /\ t <> tag) tags
  <-> Forall (fun t => t <> 0) tags /\ Forall (fun t => t <> tag) tags.
Proof.
  rewrite !Forall_forall. split.
  - intros H. split; intros x Hx; apply (H x Hx).
  - intros [H1 H2] x Hx. split; [apply (H1 x Hx) | apply (H2 x Hx)].
Qed.

Lemma usertag_low (a b c : Z) :
  0 <= a < 256 -> 0 <= b < 256 -> 0 <= c < 256 ->
  Z.lor (Z.lor a (b * 2 ^ 8)) (c * 2 ^ 16) = a + 256 * b + 65536 * c.
Proof.
  intros Ha Hb Hc.
  rewrite <- (Z.shiftl_mul_pow2 b 8), <- (Z.shiftl_mul_pow2 c 16) by lia.
  rewrite <- (Z.add_nocarry_lor a (Z.shiftl b 8))
    by (apply land_low_shift; [lia | change (2 ^ 8) with 256; lia]).
  rewrite (Z.shiftl_mul_pow2 b 8) by lia. change (2 ^ 8) with 256.
  rewrite <- (Z.add_nocarry_lor _ (Z.shiftl c 16))
    by (apply land_low_shift; [lia | change (2 ^ 16) with 65536; lia]).
  rewrite (Z.shiftl_mul_pow2 c 16) by lia. change (2 ^ 16) with 65536.
  lia.
Qed.

(** The tag is the [long] that holds the four characters, lowest first. *)
Lemma AMX_USERTAG_value (L : LongSize) (a b c d : Z) :
  0 <= a < 256 -> 0 <= b < 256 -> 0 <= c < 256 -> 0 <= d < 256 ->
  AMX_USERTAG L a b c d
  = to_long L (a + 256 * b + 65536 * c + 16777216 * d).
Proof.
  intros Ha Hb Hc Hd. unfold AMX_USERTAG.
  pose proof (usertag_low a b c Ha Hb Hc) as Hlow.
  rewrite (to_int_small a), (to_int_small b), (to_int_small c),
    (to_int_small d) by lia.
  rewrite !Z.shiftl_mul_pow2 by lia.
  rewrite (to_int_small (b * 2 ^ 8)) by lia.
  assert (Hsmall : forall x, 0 <= x < 2 ^ 31 -> to_long L x = x).
  { intros x Hx. unfold to_long. apply to_signed_small; destruct L; simpl; lia. }
  rewrite (Hsmall c), (Hsmall d) by lia.
  rewrite (Hsmall (c * 2 ^ 16)) by lia.
  rewrite Hlow. change (2 ^ 24) with 16777216.
  set (s := a + 256 * b + 65536 * c) in *.
  assert (Hrange : 0 <= s < 16777216) by (unfold s; lia).
  assert (Hcarry : forall e, Z.lor s (e * 16777216) = s + e * 16777216).
  { intros e. change 16777216 with (2 ^ 24).
    rewrite <- Z.shiftl_mul_pow2 by lia. symmetry. apply Z.add_nocarry_lor.
    apply land_low_shift; [lia |]. change (2 ^ 24) with 16777216. lia. }
  destruct L.
  - destruct (Z.lt_ge_cases d 128) as [Hlt | Hge].
    + rewrite !Hsmall by lia. rewrite Hcarry. lia.
    + unfold to_long. simpl long_bits.
      rewrite !to_signed_high by lia.
      replace (d * 16777216 - 2 ^ 32) with ((d - 256) * 16777216) by lia.
      rewrite Hcarry. lia.
  - unfold to_long. simpl long_bits.
    rewrite !to_signed_small by lia. rewrite Hcarry. lia.
Qed.

(** Its low 32 bits are the four characters, whatever the width of [long]. *)
Lemma AMX_USERTAG_pattern (L : LongSize) (a b c d : Z) :
  0 <= a < 256 -> 0 <= b < 256 -> 0 <= c < 256 -> 0 <= d < 256 ->
  to_unsigned 32 (AMX_USERTAG L a b c d)
  = a + 256 * b + 65536 * c + 16777216 * d.
Proof.
  intros Ha Hb Hc Hd. rewrite AMX_USERTAG_value by assumption.
  unfold to_unsigned, to_long. destruct L; simpl long_bits.
  - rewrite to_signed_mod by lia. apply Z.mod_small. lia.
  - rewrite to_signed_small by lia. apply Z.mod_small. lia.
Qed.

Lemma amx_SetUserData_wf (B : Build) (amx : AMX) (tag ptr : Z) :
  user_wf B amx -> user_wf B (snd (amx_SetUserData B amx tag ptr)).
Proof.
  intros [Ht Hd].
  destruct (amx_SetUserData_cases B amx tag ptr)
    as [(i & Hi & E) | (_ & _ & E)]; rewrite E; simpl.
  - unfold user_wf; simpl. rewrite !length_insert. split; assumption.
  - split; assumption.
Qed.

Lemma set_user_data_all_wf (B : Build) (calls : list (Z * Z)) :
  forall amx, user_wf B amx -> user_wf B (set_user_data_all B amx calls).
Proof.
  induction calls as [| call calls IH]; intros amx Hwf; [exact Hwf |].
  apply IH, amx_SetUserData_wf, Hwf.
Qed.

Lemma occupied_bound (B : Build) (amx : AMX) :
  user_wf B amx -> (length (occupied amx) <= AMX_USERNUM B)%nat.
Proof.
  intros [Ht _]. unfold occupied. rewrite <- Ht. apply length_filter.
Qed.

(** C9: the user-data store is a pair of arrays of AMX_USERNUM slots, four
    unless the build says otherwise, keyed by a tag that AMX_USERTAG builds
    as a long whose low 32 bits are the four characters. Setting a tag
    fails with USERDATA, and changes nothing, exactly when every slot is
    occupied by another tag; whatever the outcome the arrays keep their
    AMX_USERNUM slots, so after any sequence of calls at most AMX_USERNUM
    entries are in use. *)
Theorem user_data_capacity :
  AMX_USERNUM default_build = 4%nat
  /\ (forall B, USERNUM B = None -> AMX_USERNUM B = 4%nat)
  /\ (forall L a b c d,
        0 <= a < 256 -> 0 <= b < 256 -> 0 <= c < 256 -> 0 <= d < 256 ->
        AMX_USERTAG L a b c d
        = to_long L (a + 256 * b + 65536 * c + 16777216 * d)
        /\ - 2 ^ 31 <= AMX_USERTAG L a b c d < 2 ^ 32
        /\ to_unsigned 32 (AMX_USERTAG L a b c d)
           = a + 256 * b + 65536 * c + 16777216 * d)
  /\ (forall B amx tag ptr,
        user_wf B amx ->
        let r := amx_SetUserData B amx tag ptr in
        (Forall (fun t => t <> 0 /\ t <> tag) (usertags amx) ->
         r = (AMX_ERR_USERDATA, amx))
        /\ (fst r = AMX_ERR_USERDATA ->
            Forall (fun t => t <> 0 /\ t <> tag) (usertags amx))
        /\ user_wf B (snd r)
        /\ (length (occupied (snd r)) <= AMX_USERNUM B)%nat)
  /\ (forall B amx calls,
        user_wf B amx ->
        length (usertags (set_user_data_all B amx calls)) = AMX_USERNUM B
        /\ length (userdata (set_user_data_all B amx calls)) = AMX_USERNUM B
        /\ (length (occupied (set_user_data_all B amx calls))
            <= AMX_USERNUM B)%nat).
Proof.
  split; [reflexivity |].
  split; [intros B H; unfold AMX_USERNUM; rewrite H; reflexivity |].
  split.
  { intros L a b c d Ha Hb Hc Hd.
    split; [apply AMX_USERTAG_value; assumption |].
    split; [| apply AMX_USERTAG_pattern; assumption].
    rewrite AMX_USERTAG_value by assumption. unfold to_long.
    destruct L; simpl long_bits.
    - pose proof (to_signed_range 32
                    (a + 256 * b + 65536 * c + 16777216 * d) ltac:(lia)).
      simpl in *. lia.
    - rewrite to_signed_small by lia. lia. }
  split.
  2: { intros B amx calls Hwf.
       pose proof (set_user_data_all_wf B calls amx Hwf) as Hwf'.
       destruct Hwf' as [Ht Hd]. split; [exact Ht |]. split; [exact Hd |].
       apply occupied_bound. split; assumption. }
  intros B amx tag ptr [Ht Hd] r.
  assert (Htake : take (AMX_USERNUM B) (usertags amx) = usertags amx)
    by (apply take_ge; lia).
  assert (Hwf : user_wf B (snd r))
    by (apply amx_SetUserData_wf; split; assumption).
  split; [| split; [| split; [exact Hwf | apply occupied_bound, Hwf]]].
  - intros Hall. apply Forall_other_tags in Hall. destruct Hall as [H0 Htag].
    destruct (amx_SetUserData_cases B amx tag ptr)
      as [(i & Hi & E) | (_ & _ & E)]; [| exact E].
    exfalso. unfold amx_SetUserData in E.
    rewrite (proj2 (find_slot_None B tag (usertags amx))) in E
      by (rewrite Htake; exact Htag).
    rewrite (proj2 (find_slot_None B 0 (usertags amx))) in E
      by (rewrite Htake; exact H0).
    discriminate.
  - intros Hf.
    destruct (amx_SetUserData_cases B amx tag ptr)
      as [(i & Hi & E) | (E1 & E2 & E)].
    + unfold r in Hf. rewrite E in Hf. discriminate.
    + apply find_slot_None in E1, E2. rewrite Htake in E1, E2.
      apply Forall_other_tags. split; assumption.
Qed.

(** ** Entry selection *)


(** A table of records of a positive size that ends where the next table
    starts, inside the address space: the number of records is the number
    that fit, and record [i] starts [i] record sizes into the table. *)
Lemma table_layout (P : PtrSize) (p : Z) (hdr : AMX_HEADER)
  (field nextfield : AMX_HEADER -> Z) :
  0 < h_defsize hdr < 2 ^ 15 ->
  0 <= field hdr <= nextfield hdr -> nextfield hdr < 2 ^ 31 ->
  0 <= p -> p + nextfield hdr <= 2 ^ ptr_bits P ->
  NUMENTRIES hdr field nextfield = (nextfield hdr - field hdr) / h_defsize hdr
  /\ forall i,
       0 <= i < (nextfield hdr - field hdr) / h_defsize hdr ->
       GETENTRY P p hdr field i = p + field hdr + i * h_defsize hdr
       /\ i * h_defsize hdr + h_defsize hdr <= nextfield hdr - field hdr.
Proof.
  intros Hd Hf Hn Hp Hend.
  set (d := h_defsize hdr) in *. set (lo := field hdr) in *.
  set (hi := nextfield hdr) in *.
  assert (Hmul : d * ((hi - lo) / d) <= hi - lo) by (apply Z.mul_div_le; lia).
  split.
  - unfold NUMENTRIES. fold d lo hi.
    rewrite to_int_small by lia.
    rewrite Z.quot_div_nonneg by lia.
    apply to_uint_small. split; [apply Z.div_pos; lia |].
    apply Z.le_lt_trans with (hi - lo); [| lia].
    apply Z.div_le_upper_bound; [lia |]. nia.
  - intros i [Hi0 Hin].
    assert (Hid : i * d + d <= hi - lo) by nia.
    split; [| exact Hid].
    unfold GETENTRY. fold d lo.
    rewrite (to_uint_small lo) by lia. rewrite (to_uint_small i) by nia.
    rewrite (to_uint_small d) by lia. rewrite to_uint_small by nia.
    apply to_uintptr_small. nia.
Qed.


(** ** The theorems at concrete inputs *)

Lemma push_allot_margin_witness :
  stk sample_loaded - sizeof Cell32 t_cell
    >= hea sample_loaded + STKMARGIN Cell32
  /\ fst (amx_Push build32 sample_loaded 7) = AMX_ERR_NONE
  /\ stk (snd (amx_Push build32 sample_loaded 7)) = stk sample_loaded - 4
  /\ hea sample_loaded + 3 * sizeof Cell32 t_cell
       <= stk sample_loaded - STKMARGIN Cell32
  /\ fst (fst (amx_Allot build32 sample_image sample_loaded 3)) = AMX_ERR_NONE.
Proof.
  assert (Hp : stk sample_loaded - sizeof Cell32 t_cell
               >= hea sample_loaded + STKMARGIN Cell32)
    by (vm_compute; discriminate).
  assert (Ha : hea sample_loaded + 3 * sizeof Cell32 t_cell
               <= stk sample_loaded - STKMARGIN Cell32)
    by (vm_compute; discriminate).
  destruct push_allot_margin as (Hpush & Hallot & _).
  destruct (Hpush build32 sample_loaded 7) as (Hiff & _ & Hok).
  destruct (Hallot build32 sample_image sample_loaded 3) as (Hiff' & _ & _).
  split; [exact Hp |].
  split; [apply Hiff; exact Hp |].
  split; [apply Hok, Hiff; exact Hp |].
  split; [exact Ha | apply Hiff'; exact Ha].
Defined.

Lemma magic_by_cell_width_witness :
  h_magic (read_header (image_of (with_magic sample_header AMX_MAGIC_64))
             sample_base) <> AMX_MAGIC (cell_size build32)
  /\ amx_Init build32 (image_of (with_magic sample_header AMX_MAGIC_64))
       blank sample_base = (AMX_ERR_FORMAT, blank).
Proof.
  assert (H : h_magic (read_header
                         (image_of (with_magic sample_header AMX_MAGIC_64))
                         sample_base) <> AMX_MAGIC (cell_size build32))
    by (vm_compute; discriminate).
  split; [exact H |].
  exact (proj1 (proj2 (proj2 (proj2 (proj2 magic_by_cell_width))))
           build32 _ blank sample_base H).
Defined.

Lemma record_shapes_witness :
  h_defsize (read_header (image_of (with_defsize sample_header 10)) sample_base)
    <> sizeof_struct Cell32 AMX_FUNCSTUB
  /\ h_defsize (read_header (image_of (with_defsize sample_header 10))
                  sample_base)
       <> sizeof_struct Cell32 AMX_FUNCSTUBNT
  /\ fst (amx_Init build32 (image_of (with_defsize sample_header 10)) blank
            sample_base) <> AMX_ERR_NONE
  /\ record_shape build32 (read_header sample_image sample_base)
     = Some NameTable.
Proof.
  destruct record_shapes as (_ & _ & _ & _ & _ & Hshape & Hrej).
  assert (H1 : h_defsize (read_header (image_of (with_defsize sample_header 10))
                            sample_base)
               <> sizeof_struct Cell32 AMX_FUNCSTUB)
    by (vm_compute; discriminate).
  assert (H2 : h_defsize (read_header (image_of (with_defsize sample_header 10))
                            sample_base)
               <> sizeof_struct Cell32 AMX_FUNCSTUBNT)
    by (vm_compute; discriminate).
  split; [exact H1 |]. split; [exact H2 |]. split.
  - exact (proj1 (Hrej build32 _ blank sample_base H1 H2)).
  - apply (Hshape build32 sample_image sample_base). vm_compute. reflexivity.
Defined.


Lemma user_data_capacity_witness :
  user_wf build32 sample_full
  /\ Forall (fun t => t <> 0 /\ t <> 9) (usertags sample_full)
  /\ amx_SetUserData build32 sample_full 9 0x90 = (AMX_ERR_USERDATA, sample_full)
  /\ (length (occupied (snd (amx_SetUserData build32 sample_loaded 9 0x90)))
      <= AMX_USERNUM build32)%nat
  /\ AMX_USERTAG Long32 0 0 0 255 = - 16777216
  /\ AMX_USERTAG Long64 0 0 0 255 = 4278190080
  /\ (length (occupied (set_user_data_all build32 sample_loaded
                          [(1, 0x10); (2, 0x20); (3, 0x30); (4, 0x40);
                           (5, 0x50); (2, 0x60)]%Z))
      <= AMX_USERNUM build32)%nat.
Proof.
  destruct user_data_capacity as (_ & _ & Htag & Hset & Hall).
  assert (Hwf : user_wf build32 sample_full) by (split; reflexivity).
  assert (Hwf' : user_wf build32 sample_loaded) by (split; reflexivity).
  assert (Hother : Forall (fun t => t <> 0 /\ t <> 9) (usertags sample_full))
    by (repeat constructor; discriminate).
  split; [exact Hwf |]. split; [exact Hother |].
  split; [exact (proj1 (Hset build32 sample_full 9 0x90 Hwf) Hother) |].
  split;
    [exact (proj2 (proj2 (proj2 (Hset build32 sample_loaded 9 0x90 Hwf')))) |].
  split.
  { rewrite (proj1 (Htag Long32 0 0 0 255 ltac:(lia) ltac:(lia) ltac:(lia)
                      ltac:(lia))). reflexivity. }
  split.
  { rewrite (proj1 (Htag Long64 0 0 0 255 ltac:(lia) ltac:(lia) ltac:(lia)
                      ltac:(lia))). reflexivity. }
  apply (Hall build32 sample_loaded), Hwf'.
Defined.

Lemma address_resolution_witness :
  data sample_split <> NULL
  /\ amx_Address build32 sample_image sample_split 4132 = 0x8000 + 4132
  /\ data sample_loaded = NULL
  /\ amx_Address build32 sample_image sample_loaded 4132 = 0x1000 + 120 + 4132
  /\ in_image sample_loaded (read_header sample_image (base sample_loaded))
       (amx_Address build32 sample_image sample_loaded 4132)
  /\ ~ in_image sample_split (read_header sample_image (base sample_split))
         (amx_Address build32 sample_image sample_split 4132).
Proof.
  assert (Hd : data sample_split <> NULL) by (vm_compute; discriminate).
  assert (Hn : data sample_loaded = NULL) by reflexivity.
  destruct (address_resolution build32 sample_image sample_split 4132)
    as (_ & _ & Hsplit & _ & Hwhere).
  destruct (address_resolution build32 sample_image sample_loaded 4132)
    as (_ & _ & _ & Hloaded & Hwhere').
  split; [exact Hd |]. split; [| split; [exact Hn | split; [| split]]].
  - rewrite Hsplit; [reflexivity | exact Hd |
                      vm_compute; split; [discriminate | reflexivity]].
  - rewrite Hloaded; [reflexivity | exact Hn |
                       vm_compute; split; [discriminate | reflexivity]].
  - apply Hwhere'; try exact Hn;
      try (vm_compute; split; [discriminate | reflexivity]);
      try (vm_compute; discriminate).
    intros H. contradiction.
  - intros Hin. apply Hd. apply Hwhere; try exact Hin;
      try (vm_compute; split; [discriminate | reflexivity]);
      try (vm_compute; discriminate).
    intros _. split; [vm_compute; discriminate |].
    split; [vm_compute; discriminate |].
    right. vm_compute. discriminate.
Defined.

(** * Further properties of the header *)

(** ** Bit masks *)

Lemma land_shifted_ones (x k n : Z) :
  0 <= k -> 0 <= n -> 0 <= x < 2 ^ (k + n) ->
  Z.land x (Z.shiftl (Z.ones n) k) = 0 <-> x < 2 ^ k.
Proof.
  intros Hk Hn [Hx Hhi]. split.
  - intros Hz. destruct (Z.lt_ge_cases x (2 ^ k)) as [Hlt | Hge]; [exact Hlt |].
    exfalso.
    assert (Hpos : 0 < 2 ^ k) by (apply Z.pow_pos_nonneg; lia).
    set (y := Z.shiftr x k).
    assert (Hy : 0 < y < 2 ^ n).
    { unfold y. rewrite Z.shiftr_div_pow2 by exact Hk. split.
      - apply Z.div_str_pos. lia.
      - apply Z.div_lt_upper_bound; [exact Hpos |].
        rewrite <- Z.pow_add_r by lia. exact Hhi. }
    assert (Hj : 0 <= Z.log2 y < n).
    { split; [apply Z.log2_nonneg | apply Z.log2_lt_pow2; lia]. }
    assert (Hbit : Z.testbit (Z.land x (Z.shiftl (Z.ones n) k)) (Z.log2 y + k)
                   = true).
    { rewrite Z.land_spec, Z.shiftl_spec by lia.
      replace (Z.log2 y + k - k) with (Z.log2 y) by lia.
      rewrite Z.ones_spec_low by lia.
      rewrite <- Z.shiftr_spec by lia. fold y.
      rewrite Z.bit_log2 by lia. reflexivity. }
    rewrite Hz, Z.bits_0 in Hbit. discriminate.
  - intros Hlt. apply Z.bits_inj'. intros i Hi.
    rewrite Z.land_spec, Z.bits_0.
    destruct (Z.lt_ge_cases i k) as [Hik | Hik].
    + rewrite Z.shiftl_spec_low by exact Hik. apply andb_false_r.
    + rewrite (testbit_above x k i) by lia. reflexivity.
Qed.

(** X3: UNPACKEDMAX is all ones below the most significant character of a
    cell, and CHARMASK, cut to the width of a ucell, is exactly that
    character. For every ucell value, being at most UNPACKEDMAX is the same
    as having no bit in common with CHARMASK, whatever type the host
    computes the mask in. *)
Theorem unpacked_iff_top_char_clear :
  forall W L,
    UNPACKEDMAX W = 2 ^ (PAWN_CELL_SIZE W - CHARBITS) - 1
    /\ to_ucell W (CHARMASK W L) = Z.shiftl 255 (PAWN_CELL_SIZE W - CHARBITS)
    /\ forall x,
         0 <= x < 2 ^ PAWN_CELL_SIZE W ->
         (x <= UNPACKEDMAX W <-> Z.land x (CHARMASK W L) = 0).
Proof.
  intros W L.
  split; [destruct W; reflexivity |].
  split; [destruct W, L; reflexivity |].
  intros x Hx.
  assert (Hgen : forall k n,
             0 <= k -> 0 <= n -> PAWN_CELL_SIZE W <= k + n ->
             UNPACKEDMAX W = 2 ^ k - 1 ->
             CHARMASK W L = Z.shiftl (Z.ones n) k ->
             (x <= UNPACKEDMAX W <-> Z.land x (CHARMASK W L) = 0)).
  { intros k n Hk Hn Hw Hu Hm. rewrite Hu, Hm.
    rewrite land_shifted_ones; [lia | exact Hk | exact Hn |].
    split; [lia |].
    apply Z.lt_le_trans with (2 ^ PAWN_CELL_SIZE W); [lia |].
    apply Z.pow_le_mono_r; lia. }
  destruct W, L.
  - apply (Hgen 8 16); first [reflexivity | simpl; lia].
  - apply (Hgen 8 16); first [reflexivity | simpl; lia].
  - apply (Hgen 24 8); first [reflexivity | simpl; lia].
  - apply (Hgen 24 32); first [reflexivity | simpl; lia].
  - apply (Hgen 56 8); first [reflexivity | simpl; lia].
  - apply (Hgen 56 8); first [reflexivity | simpl; lia].
Qed.


(** X7: the tag AMX_USERTAG builds from four characters gives each of them
    back by a shift and a mask, whether long has 32 or 64 bits, so different
    character quadruples give different tags, and the tag is zero only for
    four zero characters. *)
Theorem usertag_characters :
  forall L a b c d,
    0 <= a < 256 -> 0 <= b < 256 -> 0 <= c < 256 -> 0 <= d < 256 ->
    let tag := AMX_USERTAG L a b c d in
    Z.land tag 0xff = a
    /\ Z.land (Z.shiftr tag 8) 0xff = b
    /\ Z.land (Z.shiftr tag 16) 0xff = c
    /\ Z.land (Z.shiftr tag 24) 0xff = d
    /\ (forall a' b' c' d',
          0 <= a' < 256 -> 0 <= b' < 256 -> 0 <= c' < 256 -> 0 <= d' < 256 ->
          AMX_USERTAG L a' b' c' d' = tag ->
          a' = a /\ b' = b /\ c' = c /\ d' = d)
    /\ (tag = 0 <-> a = 0 /\ b = 0 /\ c = 0 /\ d = 0).
Proof.
  intros L a b c d Ha Hb Hc Hd tag.
  assert (Hlow : tag mod 2 ^ 32 = a + 256 * b + 65536 * c + 16777216 * d)
    by (apply AMX_USERTAG_pattern; assumption).
  change 0xff with (Z.ones 8).
  rewrite <- (Z.shiftr_0_r tag) at 1.
  rewrite (char_of_low_bits tag 0 32), (char_of_low_bits tag 8 32),
    (char_of_low_bits tag 16 32), (char_of_low_bits tag 24 32) by lia.
  rewrite Hlow, Z.shiftr_0_r.
  rewrite !Z.land_ones, !Z.shiftr_div_pow2 by lia.
  change (2 ^ 8) with 256. change (2 ^ 16) with 65536.
  change (2 ^ 24) with 16777216.
  split; [| split; [| split; [| split; [| split]]]].
  - Z.div_mod_to_equations. lia.
  - Z.div_mod_to_equations. lia.
  - Z.div_mod_to_equations. lia.
  - Z.div_mod_to_equations. lia.
  - intros a' b' c' d' Ha' Hb' Hc' Hd' E.
    pose proof (AMX_USERTAG_pattern L a' b' c' d' Ha' Hb' Hc' Hd') as Hlow'.
    rewrite E in Hlow'. unfold to_unsigned in Hlow'. fold tag in Hlow'.
    rewrite Hlow in Hlow'. lia.
  - split.
    + intros Hz. rewrite Hz in Hlow. rewrite Z.mod_0_l in Hlow by lia. lia.
    + intros (-> & -> & -> & ->). unfold tag. destruct L; reflexivity.
Qed.

(** ** Decoding error codes *)

(** X8: every error enumerator is found again from its code, a code that
    decodes leads back to itself, and the integers that decode to nothing
    are the negative ones, 14, 15 and those above 27. *)
Theorem error_code_decoding :
  (forall e, err_of_code (err_code e) = Some e)
  /\ (forall v e, err_of_code v = Some e -> err_code e = v)
  /\ (forall v, err_of_code v = None <-> v < 0 \/ v = 14 \/ v = 15 \/ 27 < v).
Proof.
  assert (Htbl : enum_values 0 error_enum
                 = [ (AMX_ERR_NONE, 0); (AMX_ERR_EXIT, 1); (AMX_ERR_ASSERT, 2);
                     (AMX_ERR_STACKERR, 3); (AMX_ERR_BOUNDS, 4);
                     (AMX_ERR_MEMACCESS, 5); (AMX_ERR_INVINSTR, 6);
                     (AMX_ERR_STACKLOW, 7); (AMX_ERR_HEAPLOW, 8);
                     (AMX_ERR_CALLBACK, 9); (AMX_ERR_NATIVE, 10);
                     (AMX_ERR_DIVIDE, 11); (AMX_ERR_SLEEP, 12);
                     (AMX_ERR_INVSTATE, 13); (AMX_ERR_MEMORY, 16);
                     (AMX_ERR_FORMAT, 17); (AMX_ERR_VERSION, 18);
                     (AMX_ERR_NOTFOUND, 19); (AMX_ERR_INDEX, 20);
                     (AMX_ERR_DEBUG, 21); (AMX_ERR_INIT, 22);
                     (AMX_ERR_USERDATA, 23); (AMX_ERR_INIT_JIT, 24);
                     (AMX_ERR_PARAMS, 25); (AMX_ERR_DOMAIN, 26);
                     (AMX_ERR_GENERAL, 27) ]) by reflexivity.
  split; [| split].
  - intros []; vm_compute; reflexivity.
  - intros v e. unfold err_of_code. rewrite Htbl.
    cbn [list_find fmap option_fmap option_map snd fst].
    repeat (case_decide; [subst v; cbn; intros [= <-]; reflexivity |]).
    cbn. discriminate.
  - intros v. unfold err_of_code. rewrite Htbl.
    cbn [list_find fmap option_fmap option_map snd fst].
    repeat (case_decide; [subst v; cbn; split; [discriminate | lia] |]).
    cbn. split; [intros _; lia | reflexivity].
Qed.

(** ** Flag words *)

Lemma amx_flags_disjoint (f g : Z) :
  In f amx_flags -> In g amx_flags -> f <> g -> Z.land f g = 0.
Proof.
  unfold amx_flags. cbn [In]. intros Hf Hg Hne.
  repeat (destruct Hf as [<- | Hf]; [| try contradiction]);
    repeat (destruct Hg as [<- | Hg]; [| try contradiction]);
    first [reflexivity | contradiction].
Qed.

Lemma amx_flags_16bit (f : Z) : In f amx_flags -> 0 <= f < 2 ^ 16.
Proof.
  unfold amx_flags. cbn [In]. intros Hf.
  repeat (destruct Hf as [<- | Hf]; [vm_compute; split; congruence |]).
  contradiction.
Qed.

Lemma land_lor_same (w f : Z) : Z.land (Z.lor w f) f = f.
Proof.
  apply Z.bits_inj'. intros i _. rewrite Z.land_spec, Z.lor_spec.
  destruct (Z.testbit w i), (Z.testbit f i); reflexivity.
Qed.

Lemma land_clear_same (w f : Z) : Z.land (Z.land w (Z.lnot f)) f = 0.
Proof.
  apply Z.bits_inj'. intros i Hi.
  rewrite !Z.land_spec, Z.lnot_spec, Z.bits_0 by exact Hi.
  destruct (Z.testbit w i), (Z.testbit f i); reflexivity.
Qed.

Lemma land_clear_other (w f g : Z) :
  Z.land f g = 0 -> Z.land (Z.land w (Z.lnot f)) g = Z.land w g.
Proof.
  intros Hd. apply Z.bits_inj'. intros i Hi.
  assert (Hb : Z.testbit f i && Z.testbit g i = false)
    by (rewrite <- Z.land_spec, Hd; apply Z.bits_0).
  rewrite !Z.land_spec, Z.lnot_spec by exact Hi.
  destruct (Z.testbit w i), (Z.testbit f i), (Z.testbit g i);
    try reflexivity; discriminate.
Qed.

(** X9: setting a flag of the header in a word makes that flag test as set
    and clearing it makes it test as clear, and neither changes the test of
    any other flag of the header. *)
Theorem flag_updates_independent :
  forall w f g,
    In f amx_flags -> In g amx_flags ->
    Z.land (Z.lor w f) f = f
    /\ Z.land (Z.land w (Z.lnot f)) f = 0
    /\ (f <> g ->
        Z.land (Z.lor w f) g = Z.land w g
        /\ Z.land (Z.land w (Z.lnot f)) g = Z.land w g).
Proof.
  intros w f g Hf Hg.
  split; [apply land_lor_same |]. split; [apply land_clear_same |].
  intros Hne. pose proof (amx_flags_disjoint f g Hf Hg Hne) as Hd. split.
  - rewrite Z.land_lor_distr_l, Hd. apply Z.lor_0_r.
  - apply land_clear_other, Hd.
Qed.

Lemma land_mod_low (x f n : Z) :
  0 <= n -> 0 <= f < 2 ^ n -> Z.land (x mod 2 ^ n) f = Z.land x f.
Proof.
  intros Hn Hf. apply Z.bits_inj'. intros i Hi. rewrite !Z.land_spec.
  destruct (Z.lt_ge_cases i n) as [Hlt | Hge].
  - rewrite Z.mod_pow2_bits_low by exact Hlt. reflexivity.
  - rewrite (testbit_above f n i Hf Hge), !andb_false_r. reflexivity.
Qed.

Lemma read_le_range (mem : Memory) (n : nat) :
  forall addr, 0 <= read_le mem addr n < 256 ^ Z.of_nat n.
Proof.
  induction n as [| n IH]; intros addr.
  - simpl. lia.
  - cbn [read_le]. rewrite Nat2Z.inj_succ, Z.pow_succ_r by lia.
    pose proof (IH (addr + 1)). pose proof (Z.mod_pos_bound (mem addr) 256).
    lia.
Qed.

(** X10: the flags member of the header is a signed 16-bit integer, yet
    every flag tests on it as on the two bytes stored in the file, and the
    member is negative exactly when RELOC, the flag at bit 15, is set. *)
Theorem header_flags_signed :
  forall mem p,
    let raw := read_le mem (p + 8) 2 in
    let fl := h_flags (read_header mem p) in
    (forall f, In f amx_flags -> Z.land fl f = Z.land raw f)
    /\ (fl < 0 <-> Z.land fl AMX_FLAG_RELOC <> 0).
Proof.
  intros mem p raw fl.
  assert (Hfl : fl = to_signed 16 raw) by reflexivity.
  assert (Hraw : 0 <= raw < 2 ^ 16) by apply (read_le_range mem 2).
  assert (Hlow : forall f, 0 <= f < 2 ^ 16 -> Z.land fl f = Z.land raw f).
  { intros f Hf. rewrite <- (land_mod_low fl f 16), <- (land_mod_low raw f 16)
      by (lia || exact Hf).
    rewrite Hfl, to_signed_mod by lia. reflexivity. }
  split; [intros f Hf; apply Hlow, amx_flags_16bit, Hf |].
  rewrite Hlow by (vm_compute; split; congruence).
  change AMX_FLAG_RELOC with (Z.shiftl (Z.ones 1) 15).
  pose proof (land_shifted_ones raw 15 1 ltac:(lia) ltac:(lia) Hraw) as Hs.
  assert (Hsign : fl < 0 <-> 2 ^ 15 <= raw).
  { rewrite Hfl. unfold to_signed. change (16 - 1) with 15.
    destruct (Z.lt_ge_cases raw (2 ^ 15)) as [Hlt | Hge].
    - rewrite Z.mod_small by lia. lia.
    - replace (raw + 2 ^ 15) with (raw - 2 ^ 15 + 1 * 2 ^ 16) by lia.
      rewrite Z_mod_plus_full, Z.mod_small by lia. lia. }
  rewrite Hsign. split.
  - intros Hge Hz. apply Hs in Hz. lia.
  - intros Hnz. destruct (Z.lt_ge_cases raw (2 ^ 15)) as [Hlt | Hge];
      [| exact Hge]. exfalso. apply Hnz, Hs, Hlt.
Qed.

(** ** Address arithmetic *)

(** X11: amx_Address keeps offsets: moving the script address by k moves
    the host address by k, within the pointer range. Two script addresses
    resolve to the same host address exactly when they agree modulo the
    pointer range, and the result is always a pointer value. *)
Theorem address_offsets :
  forall B mem amx,
    let M := 2 ^ ptr_bits (ptr_size B) in
    (forall a k,
        amx_Address B mem amx (a + k) = (amx_Address B mem amx a + k) mod M)
    /\ (forall a1 a2,
          amx_Address B mem amx a1 = amx_Address B mem amx a2
          <-> a1 mod M = a2 mod M)
    /\ (forall a, 0 <= amx_Address B mem amx a < M).
Proof.
  intros B mem amx M.
  assert (HM : 0 < M) by (apply Z.pow_pos_nonneg; [lia | destruct (ptr_size B); simpl; lia]).
  split; [| split].
  - intros a k. rewrite !amx_Address_mod. fold M.
    rewrite Zplus_mod_idemp_l. f_equal. lia.
  - intros a1 a2. rewrite !amx_Address_mod. fold M.
    set (o := if decide (data amx = NULL)
              then base amx + h_dat (read_header mem (base amx))
              else data amx).
    split; intros E.
    + assert (E' : ((o + a1) mod M - o) mod M = ((o + a2) mod M - o) mod M)
        by (rewrite E; reflexivity).
      rewrite !Zminus_mod_idemp_l in E'.
      replace (o + a1 - o) with a1 in E' by lia.
      replace (o + a2 - o) with a2 in E' by lia. exact E'.
    + rewrite <- (Zplus_mod_idemp_r a1), <- (Zplus_mod_idemp_r a2), E.
      reflexivity.
  - intros a. rewrite amx_Address_mod. fold M. apply Z.mod_pos_bound, HM.
Qed.

(** ** Tables *)

(** X5: for a positive record size and a table that ends where the next one
    starts, the whole of it below the end of the address space, NUMENTRIES
    is the number of whole records between the two offsets, zero when not
    even one fits, and every record that GETENTRY yields for an index below
    NUMENTRIES starts at or after the table's offset, index times defsize
    in, and ends at or before the next table. *)
Theorem table_entries_in_bounds :
  forall P p hdr (field nextfield : AMX_HEADER -> Z),
    0 < h_defsize hdr < 2 ^ 15 ->
    0 <= field hdr <= nextfield hdr -> nextfield hdr < 2 ^ 31 ->
    0 <= p -> p + nextfield hdr <= 2 ^ ptr_bits P ->
    let n := NUMENTRIES hdr field nextfield in
    n = (nextfield hdr - field hdr) / h_defsize hdr
    /\ (n = 0 <-> nextfield hdr - field hdr < h_defsize hdr)
    /\ forall i,
         0 <= i < n ->
         GETENTRY P p hdr field i = p + field hdr + i * h_defsize hdr
         /\ p + field hdr <= GETENTRY P p hdr field i
         /\ GETENTRY P p hdr field i + h_defsize hdr <= p + nextfield hdr.
Proof.
  intros P p hdr field nextfield Hd Hf Hn Hp Hend n.
  destruct (table_layout P p hdr field nextfield Hd Hf Hn Hp Hend)
    as [Hq Hentry].
  fold n in Hq. rewrite <- Hq in Hentry.
  set (d := h_defsize hdr) in *. set (lo := field hdr) in *.
  set (hi := nextfield hdr) in *.
  split; [exact Hq |]. split.
  - rewrite Hq. split.
    + intros Hz. destruct (Z.lt_ge_cases (hi - lo) d) as [Hlt | Hge];
        [exact Hlt |].
      assert (1 <= (hi - lo) / d) by (apply Z.div_le_lower_bound; lia). lia.
    + intros Hlt. apply Z.div_small. lia.
  - intros i Hi. destruct (Hentry i Hi) as [Hg Hid].
    rewrite Hg. repeat split; nia.
Qed.

Lemma length_bytes_le (n : nat) (x : Z) : length (bytes_le n x) = n.
Proof.
  revert x. induction n as [| n IH]; intros x; simpl; [| rewrite IH]; reflexivity.
Qed.

Lemma bytes_at_ext (n : nat) :
  forall (a : Z) (m1 m2 : Memory),
    (forall x, a <= x -> m1 x = m2 x) ->
    bytes_at m1 a n = bytes_at m2 a n.
Proof.
  induction n as [| n IHn]; intros a m1 m2 H; [reflexivity |].
  cbn [bytes_at]. rewrite (H a) by lia. f_equal.
  apply IHn. intros x Hx. apply H. lia.
Qed.

Lemma bytes_at_bytes (l : list Z) :
  forall (p : Z) (rest : list Z),
    Forall (fun b => 0 <= b < 256) l ->
    bytes_at (mem_of_bytes p (l ++ rest)) p (length l) = l.
Proof.
  induction l as [| b l IH]; intros p rest Hl; [reflexivity |].
  apply Forall_cons_1 in Hl. destruct Hl as [Hb Hl].
  cbn [length bytes_at]. f_equal.
  - unfold mem_of_bytes. rewrite Z.leb_refl, Z.sub_diag. simpl.
    apply Z.mod_small, Hb.
  - transitivity (bytes_at (mem_of_bytes (p + 1) (l ++ rest)) (p + 1) (length l));
      [| apply IH, Hl].
    apply bytes_at_ext. intros x Hx.
    apply (mem_of_bytes_skip p [b] (l ++ rest) x). simpl. lia.
Qed.

Lemma sizeof_ucell_nat (W : CellSize) :
  Z.of_nat (Z.to_nat (sizeof W t_ucell)) = sizeof W t_ucell.
Proof. destruct W; reflexivity. Qed.

Lemma pow256_ucell (W : CellSize) :
  256 ^ Z.of_nat (Z.to_nat (sizeof W t_ucell)) = 2 ^ PAWN_CELL_SIZE W.
Proof. destruct W; reflexivity. Qed.

(** X6: a table record that lies inside the address space is decoded as it
    was laid out. In either shape the address is read back through the
    shared first member. With a name table GETENTRYNAME is the header plus
    the stored name offset, when that is a host address; without one it is
    the second member of the record itself, whose sEXPMAX+1 bytes are read
    back and reach exactly to the end of the record. *)
Theorem table_record_round_trip :
  forall B p hdr entry address rest,
    let W := cell_size B in
    let M := 2 ^ ptr_bits (ptr_size B) in
    0 <= address < 2 ^ PAWN_CELL_SIZE W ->
    0 <= entry ->
    (forall nameofs,
        USENAMETABLE B hdr = true -> 0 <= nameofs < 2 ^ 32 ->
        entry + sizeof_struct W AMX_FUNCSTUBNT <= M ->
        0 <= p -> p + nameofs < M ->
        let mem := mem_of_bytes entry (stubnt_bytes W address nameofs ++ rest) in
        read_as W t_ucell mem (entry + offsetof W AMX_FUNCPART 0) = address
        /\ GETENTRYNAME B mem p hdr entry = p + nameofs)
    /\ (forall name,
          USENAMETABLE B hdr = false ->
          Forall (fun b => 0 <= b < 256) name ->
          entry + sizeof_struct W AMX_FUNCSTUB <= M ->
          let mem := mem_of_bytes entry (stub_bytes W address name ++ rest) in
          read_as W t_ucell mem (entry + offsetof W AMX_FUNCPART 0) = address
          /\ GETENTRYNAME B mem p hdr entry = entry + sizeof W t_ucell
          /\ bytes_at mem (GETENTRYNAME B mem p hdr entry) (sEXPMAX + 1)
             = take (sEXPMAX + 1) (name ++ replicate (sEXPMAX + 1) 0)
          /\ GETENTRYNAME B mem p hdr entry + Z.of_nat (sEXPMAX + 1)
             = entry + sizeof_struct W AMX_FUNCSTUB).
Proof.
  intros B p hdr entry address rest W M Haddr Hentry. subst W M.
  assert (Hread : forall tail,
             read_as (cell_size B) t_ucell
               (mem_of_bytes entry
                  (bytes_le (Z.to_nat (sizeof (cell_size B) t_ucell)) address ++ tail))
               (entry + offsetof (cell_size B) AMX_FUNCPART 0) = address).
  { intros tail. unfold read_as. cbn [is_signed].
    replace (entry + offsetof (cell_size B) AMX_FUNCPART 0) with entry
      by (unfold offsetof; simpl; lia).
    rewrite read_le_bytes, pow256_ucell. apply Z.mod_small, Haddr. }
  assert (Hsz : 0 < sizeof (cell_size B) t_ucell)
    by (destruct (cell_size B); reflexivity).
  split.
  - intros nameofs Hnt Hofs Hend Hp Hname mem. unfold mem, stubnt_bytes.
    rewrite <- app_assoc. split; [apply Hread |].
    unfold GETENTRYNAME. rewrite Hnt.
    assert (Hoff : offsetof (cell_size B) AMX_FUNCSTUBNT 1
                   = sizeof (cell_size B) t_ucell)
      by (unfold offsetof; simpl; lia).
    assert (Hsize : sizeof_struct (cell_size B) AMX_FUNCSTUBNT
                    = sizeof (cell_size B) t_ucell + 4)
      by (destruct (cell_size B); reflexivity).
    rewrite Hoff.
    rewrite (to_uintptr_small _ (entry + sizeof (cell_size B) t_ucell)) by lia.
    unfold read_as. cbn [is_signed].
    replace (entry + sizeof (cell_size B) t_ucell)
      with (entry + Z.of_nat (length (bytes_le (Z.to_nat (sizeof (cell_size B) t_ucell))
                                        address)))
      by (rewrite length_bytes_le, sizeof_ucell_nat; reflexivity).
    rewrite read_le_skip by apply Z.le_refl.
    change (Z.to_nat (sizeof (cell_size B) t_uint32)) with 4%nat.
    rewrite read_le_bytes. change (256 ^ Z.of_nat 4) with (2 ^ 32).
    rewrite Z.mod_small by exact Hofs. rewrite to_uint_small by exact Hofs.
    apply to_uintptr_small. lia.
  - intros name Hinl Hname Hend mem. unfold mem, stub_bytes.
    rewrite <- app_assoc. split; [apply Hread |].
    assert (Hsize : sizeof_struct (cell_size B) AMX_FUNCSTUB
                    = sizeof (cell_size B) t_ucell + 20)
      by (destruct (cell_size B); reflexivity).
    assert (Hg : GETENTRYNAME B
                   (mem_of_bytes entry
                      (bytes_le (Z.to_nat (sizeof (cell_size B) t_ucell)) address
                       ++ take (sEXPMAX + 1) (name ++ replicate (sEXPMAX + 1) 0)
                       ++ rest)) p hdr entry
                 = entry + sizeof (cell_size B) t_ucell).
    { unfold GETENTRYNAME. rewrite Hinl.
      replace (offsetof (cell_size B) AMX_FUNCSTUB 1)
        with (sizeof (cell_size B) t_ucell) by (unfold offsetof; simpl; lia).
      apply to_uintptr_small. lia. }
    rewrite Hg. split; [reflexivity |]. split.
    + set (field := take (sEXPMAX + 1) (name ++ replicate (sEXPMAX + 1) 0)).
      assert (Hlen : length field = (sEXPMAX + 1)%nat).
      { unfold field. rewrite length_take, length_app, length_replicate. lia. }
      assert (Hfield : Forall (fun b => 0 <= b < 256) field).
      { unfold field. apply Forall_take, Forall_app. split; [exact Hname |].
        apply Forall_replicate. lia. }
      rewrite <- Hlen.
      transitivity (bytes_at (mem_of_bytes (entry + sizeof (cell_size B) t_ucell)
                                (field ++ rest))
                      (entry + sizeof (cell_size B) t_ucell) (length field));
        [| apply bytes_at_bytes, Hfield].
      apply bytes_at_ext. intros x Hx.
      rewrite (mem_of_bytes_skip entry
                 (bytes_le (Z.to_nat (sizeof (cell_size B) t_ucell)) address)
                 (field ++ rest) x)
        by (rewrite length_bytes_le, sizeof_ucell_nat; lia).
      rewrite length_bytes_le, sizeof_ucell_nat. reflexivity.
    + destruct (cell_size B); cbn; lia.
Qed.

Lemma to_cell_sizeof (W : CellSize) : to_cell W (sizeof W t_cell) = sizeof W t_cell.
Proof. destruct W; reflexivity. Qed.

(** ** Parameter blocks *)

(** X4: a parameter block whose first cell holds the size in bytes of n
    arguments reports n parameters; for any non-negative first cell the
    count is the number of whole cells in it. *)
Theorem num_params_counts :
  forall W,
    let c := sizeof W t_cell in
    (forall params n args,
        0 <= n -> n * c < 2 ^ (PAWN_CELL_SIZE W - 1) ->
        amx_NumParams W
          (mem_of_bytes params (bytes_le (Z.to_nat c) (n * c) ++ args)) params
        = n)
    /\ (forall mem params,
          0 <= read_as W t_cell mem params ->
          let n := amx_NumParams W mem params in
          0 <= n /\ n * c <= read_as W t_cell mem params < (n + 1) * c).
Proof.
  intros W c.
  assert (Hc : 0 < c) by apply sizeof_cell_pos.
  split.
  - intros params n args Hn Hfit. unfold amx_NumParams.
    rewrite to_cell_sizeof. fold c.
    assert (Hv : read_as W t_cell
                   (mem_of_bytes params (bytes_le (Z.to_nat c) (n * c) ++ args))
                   params = n * c).
    { unfold read_as. cbn [is_signed]. fold c. rewrite read_le_bytes.
      replace (256 ^ Z.of_nat (Z.to_nat c)) with (2 ^ (8 * c))
        by (unfold c; destruct W; reflexivity).
      apply to_signed_of_mod; [lia |].
      replace (8 * c - 1) with (PAWN_CELL_SIZE W - 1)
        by (unfold c; destruct W; reflexivity).
      split; [| exact Hfit].
      assert (0 < 2 ^ (PAWN_CELL_SIZE W - 1))
        by (apply Z.pow_pos_nonneg; destruct W; simpl; lia).
      nia. }
    rewrite Hv. apply Z.quot_mul. lia.
  - intros mem params Hv n. unfold n, amx_NumParams.
    rewrite to_cell_sizeof. fold c.
    set (v := read_as W t_cell mem params) in *.
    rewrite Z.quot_div_nonneg by lia.
    pose proof (Z.mul_div_le v c Hc).
    pose proof (Z.mul_succ_div_gt v c Hc).
    split; [apply Z.div_pos; lia | lia].
Qed.

(** ** The header as bytes *)

Lemma bytes_le_read (n : nat) :
  forall (mem : Memory) (a : Z), bytes_le n (read_le mem a n) = bytes_at mem a n.
Proof.
  induction n as [| n IH]; intros mem a; [reflexivity |].
  cbn [read_le bytes_le bytes_at].
  pose proof (Z.mod_pos_bound (mem a) 256 ltac:(lia)) as Hb.
  replace ((mem a mod 256 + 256 * read_le mem (a + 1) n) mod 256)
    with (mem a mod 256)
    by (apply (Z.mod_unique_pos _ _ (read_le mem (a + 1) n)); lia).
  replace ((mem a mod 256 + 256 * read_le mem (a + 1) n) / 256)
    with (read_le mem (a + 1) n)
    by (apply (Z.div_unique_pos _ _ _ (mem a mod 256)); lia).
  rewrite IH. reflexivity.
Qed.

Lemma bytes_le_congr (n : nat) :
  forall x y, x mod 256 ^ Z.of_nat n = y mod 256 ^ Z.of_nat n ->
              bytes_le n x = bytes_le n y.
Proof.
  induction n as [| n IH]; intros x y E; [reflexivity |].
  rewrite Nat2Z.inj_succ, Z.pow_succ_r in E by lia.
  assert (Hp : 0 < 256 ^ Z.of_nat n) by (apply Z.pow_pos_nonneg; lia).
  rewrite !Z.rem_mul_r in E by lia.
  pose proof (Z.mod_pos_bound x 256 ltac:(lia)).
  pose proof (Z.mod_pos_bound y 256 ltac:(lia)).
  pose proof (Z.mod_pos_bound (x / 256) (256 ^ Z.of_nat n) Hp).
  pose proof (Z.mod_pos_bound (y / 256) (256 ^ Z.of_nat n) Hp).
  cbn [bytes_le]. f_equal; [lia |]. apply IH. lia.
Qed.

Lemma bytes_at_app (n m : nat) :
  forall (mem : Memory) (a : Z),
    bytes_at mem a (n + m) = bytes_at mem a n ++ bytes_at mem (a + Z.of_nat n) m.
Proof.
  induction n as [| n IH]; intros mem a.
  - simpl. rewrite Z.add_0_r. reflexivity.
  - cbn [Nat.add bytes_at app]. f_equal. rewrite IH. do 2 f_equal. lia.
Qed.

Lemma encode_stored (fs : list (nat * Z)) :
  forall (mem : Memory) (a : Z),
    stored_at mem a fs -> encode fs = bytes_at mem a (length (encode fs)).
Proof.
  induction fs as [| [n x] fs IH]; intros mem a H; [reflexivity |].
  destruct H as [Hx Hrest].
  cbn [encode flat_map fst snd]. fold (encode fs).
  rewrite length_app, length_bytes_le, bytes_at_app. f_equal.
  - rewrite <- bytes_le_read. apply bytes_le_congr.
    rewrite Hx. symmetry. apply Z.mod_small, read_le_range.
  - apply IH, Hrest.
Qed.

Lemma header_member_mod (mem : Memory) (p : Z) (i : nat) (t : ctype) (n : nat) :
  AMX_HEADER_layout !! i = Some t ->
  Z.of_nat n = sizeof Cell32 t -> 0 < sizeof Cell32 t ->
  header_member mem p i mod 256 ^ Z.of_nat n
  = read_le mem (p + offsetof Cell32 AMX_HEADER_layout i) n.
Proof.
  intros Ht Hn Hpos. unfold header_member, read_as.
  rewrite (nth_lookup_Some _ _ _ _ Ht), <- Hn, Nat2Z.id.
  replace (256 ^ Z.of_nat n) with (2 ^ (8 * Z.of_nat n))
    by (rewrite Z.pow_mul_r by lia; reflexivity).
  destruct (is_signed t).
  - rewrite to_signed_mod by lia.
    apply Z.mod_small. rewrite Z.pow_mul_r by lia. apply read_le_range.
  - apply Z.mod_small. rewrite Z.pow_mul_r by lia. apply read_le_range.
Qed.

Lemma read_header_stored (mem : Memory) (p : Z) :
  stored_at mem p (header_fields (read_header mem p)).
Proof.
  unfold read_header, header_fields.
  cbn [stored_at h_size h_magic h_file_version h_amx_version h_flags h_defsize
       h_cod h_dat h_hea h_stp h_cip h_publics h_natives h_libraries
       h_pubvars h_tags h_nametable].
  repeat (split;
          [ erewrite header_member_mod by reflexivity;
            f_equal; vm_compute (offsetof _ _ _); lia | ]).
  exact I.
Qed.

Lemma bytes_at_local (n : nat) :
  forall (m1 m2 : Memory) (a : Z),
    (forall x, a <= x < a + Z.of_nat n -> m1 x mod 256 = m2 x mod 256) ->
    bytes_at m1 a n = bytes_at m2 a n.
Proof.
  induction n as [| n IH]; intros m1 m2 a H; [reflexivity |].
  cbn [bytes_at]. f_equal; [apply H; lia |].
  apply IH. intros x Hx. apply H. lia.
Qed.

Lemma header_wf_read (mem : Memory) (p : Z) : header_wf (read_header mem p).
Proof.
  unfold header_wf, read_header, header_fields, AMX_HEADER_layout.
  cbn [map snd h_size h_magic h_file_version h_amx_version h_flags h_defsize
       h_cod h_dat h_hea h_stp h_cip h_publics h_natives h_libraries
       h_pubvars h_tags h_nametable].
  repeat (apply Forall2_cons;
          [ unfold fits, header_member, read_as;
            cbn [nth AMX_HEADER_layout is_signed];
            first [ apply to_signed_range; reflexivity
                  | apply (read_le_range mem 2) ] | ]).
  apply Forall2_nil.
Qed.

(** X1: the packed little-endian image of a header is 56 bytes long and is
    read back member for member, whatever follows it in memory; two headers
    with members in range and the same image are the same header. *)
Theorem header_round_trip :
  forall h,
    header_wf h ->
    (forall rest p, read_header (mem_of_bytes p (header_bytes h ++ rest)) p = h)
    /\ length (header_bytes h) = 56%nat
    /\ (forall h', header_wf h' -> header_bytes h' = header_bytes h -> h' = h).
Proof.
  intros h Hwf.
  split; [intros rest p; apply read_header_bytes, Hwf |].
  split; [reflexivity |].
  intros h' Hwf' E.
  rewrite <- (read_header_bytes h' [] 0 Hwf'), E.
  apply read_header_bytes, Hwf.
Qed.

(** X2: reading a header looks at 56 bytes and nothing else. Every member
    read is a value of its type, writing the header read out again gives
    the 56 bytes found in memory, and memories that agree on those bytes
    give the same header. *)
Theorem header_read_is_local :
  forall mem p,
    header_wf (read_header mem p)
    /\ header_bytes (read_header mem p) = bytes_at mem p 56
    /\ (forall mem',
          (forall a, p <= a < p + 56 -> mem' a mod 256 = mem a mod 256) ->
          read_header mem' p = read_header mem p).
Proof.
  intros mem p.
  assert (Hbytes : forall m, header_bytes (read_header m p) = bytes_at m p 56).
  { intros m. unfold header_bytes.
    rewrite (encode_stored _ m p (read_header_stored m p)). reflexivity. }
  split; [apply header_wf_read |]. split; [apply Hbytes |].
  intros mem' Hsame.
  rewrite <- (read_header_bytes (read_header mem' p) [] 0 (header_wf_read mem' p)).
  rewrite <- (read_header_bytes (read_header mem p) [] 0 (header_wf_read mem p)).
  rewrite !Hbytes. f_equal. f_equal. f_equal.
  apply bytes_at_local. exact Hsame.
Qed.

(** ** Wide pointers *)

(** X12: on a 64-bit host relocation is switched off exactly when the cell
    size was set to 16 or 32 bits; with the default cell size, on either
    host, a pointer fits in a cell and relocation stays on. *)
Theorem wide_pointers_need_small_cells :
  (forall W jit un d32,
      AMX_DONT_RELOCATE (mkBuild W Ptr64 jit un d32) = true
      <-> PAWN_CELL_SIZE W < ptr_bits Ptr64)
  /\ (forall P jit un d32,
        AMX_DONT_RELOCATE (mkBuild (default_cell_size P) P jit un d32) = false
        /\ ptr_bits P <= PAWN_CELL_SIZE (default_cell_size P)).
Proof.
  split.
  - intros [] jit un d32; cbn; split; intros H;
      first [reflexivity | lia | discriminate].
  - intros [] jit un d32; cbn; split; first [reflexivity | lia].
Qed.

(** ** The further theorems at concrete inputs *)

Lemma header_round_trip_witness :
  header_wf sample_header
  /\ read_header sample_image sample_base = sample_header.
Proof.
  assert (Hwf : header_wf sample_header).
  { unfold header_wf. repeat constructor; vm_compute; congruence. }
  split; [exact Hwf |].
  exact (proj1 (header_round_trip sample_header Hwf)
           (bytes_le 4 16 ++ bytes_le 4 64) sample_base).
Defined.

Lemma header_read_is_local_witness :
  (forall a, sample_base <= a < sample_base + 56 ->
             header_only sample_image sample_base a mod 256
             = sample_image a mod 256)
  /\ read_header (header_only sample_image sample_base) sample_base
     = read_header sample_image sample_base.
Proof.
  assert (H : forall a, sample_base <= a < sample_base + 56 ->
                        header_only sample_image sample_base a mod 256
                        = sample_image a mod 256).
  { intros a [_ Ha]. unfold header_only.
    destruct (Z.ltb_spec a (sample_base + 56)); [reflexivity | lia]. }
  split; [exact H |].
  exact (proj2 (proj2 (header_read_is_local sample_image sample_base)) _ H).
Defined.

Lemma unpacked_iff_top_char_clear_witness :
  0 <= 0x41 < 2 ^ PAWN_CELL_SIZE Cell32
  /\ Z.land 0x41 (CHARMASK Cell32 Long64) = 0
  /\ 0 <= 0x41424344 < 2 ^ PAWN_CELL_SIZE Cell32
  /\ ~ 0x41424344 <= UNPACKEDMAX Cell32.
Proof.
  destruct (unpacked_iff_top_char_clear Cell32 Long64) as (_ & _ & H).
  assert (H1 : 0 <= 0x41 < 2 ^ PAWN_CELL_SIZE Cell32)
    by (vm_compute; split; congruence).
  assert (H2 : 0 <= 0x41424344 < 2 ^ PAWN_CELL_SIZE Cell32)
    by (vm_compute; split; congruence).
  split; [exact H1 |]. split; [| split; [exact H2 |]].
  - apply (H _ H1). vm_compute. congruence.
  - intros Hle. apply (H _ H2) in Hle. vm_compute in Hle. discriminate.
Defined.

Lemma num_params_counts_witness :
  0 <= 3 /\ 3 * sizeof Cell32 t_cell < 2 ^ (PAWN_CELL_SIZE Cell32 - 1)
  /\ amx_NumParams Cell32 sample_params 0x2000 = 3.
Proof.
  assert (H1 : 0 <= 3) by lia.
  assert (H2 : 3 * sizeof Cell32 t_cell < 2 ^ (PAWN_CELL_SIZE Cell32 - 1))
    by (vm_compute; reflexivity).
  split; [exact H1 |]. split; [exact H2 |].
  exact (proj1 (num_params_counts Cell32) 0x2000 3
           (bytes_le 4 10 ++ bytes_le 4 20 ++ bytes_le 4 30) H1 H2).
Defined.

Lemma table_entries_in_bounds_witness :
  0 < h_defsize table_header < 2 ^ 15
  /\ 0 <= h_publics table_header <= h_natives table_header
  /\ h_natives table_header < 2 ^ 31
  /\ sample_base + h_natives table_header <= 2 ^ ptr_bits Ptr32
  /\ NUMENTRIES table_header h_publics h_natives = 3
  /\ GETENTRY Ptr32 sample_base table_header h_publics 2 = sample_base + 56 + 16
  /\ GETENTRY Ptr32 sample_base table_header h_publics 2
     + h_defsize table_header
     <= sample_base + h_natives table_header.
Proof.
  assert (H1 : 0 < h_defsize table_header < 2 ^ 15)
    by (vm_compute; split; reflexivity).
  assert (H2 : 0 <= h_publics table_header <= h_natives table_header)
    by (vm_compute; split; congruence).
  assert (H3 : h_natives table_header < 2 ^ 31) by (vm_compute; reflexivity).
  assert (H4 : 0 <= sample_base) by (vm_compute; congruence).
  assert (H5 : sample_base + h_natives table_header <= 2 ^ ptr_bits Ptr32)
    by (vm_compute; congruence).
  destruct (table_entries_in_bounds Ptr32 sample_base table_header h_publics
              h_natives H1 H2 H3 H4 H5) as (Hn & _ & Hin).
  assert (Hi : 0 <= 2 < NUMENTRIES table_header h_publics h_natives)
    by (rewrite Hn; vm_compute; split; congruence).
  split; [exact H1 |]. split; [exact H2 |]. split; [exact H3 |].
  split; [exact H5 |]. split; [rewrite Hn; reflexivity |].
  split; [rewrite (proj1 (Hin 2 Hi)); reflexivity |].
  apply (Hin 2 Hi).
Defined.

Lemma table_record_round_trip_witness :
  0 <= 16 < 2 ^ PAWN_CELL_SIZE (cell_size build32)
  /\ USENAMETABLE build32 sample_header = true
  /\ GETENTRYNAME build32
       (mem_of_bytes (sample_base + 56) (stubnt_bytes Cell32 16 64 ++ []))
       sample_base sample_header (sample_base + 56)
     = sample_base + 64
  /\ USENAMETABLE build32 (with_defsize sample_header 24) = false
  /\ bytes_at (mem_of_bytes (sample_base + 56)
                 (stub_bytes Cell32 16 [109; 97; 105; 110] ++ []))
       (sample_base + 56 + 4) (sEXPMAX + 1)
     = [109; 97; 105; 110; 0; 0; 0; 0; 0; 0; 0; 0; 0; 0; 0; 0; 0; 0; 0; 0].
Proof.
  assert (Ha : 0 <= 16 < 2 ^ PAWN_CELL_SIZE (cell_size build32))
    by (vm_compute; split; congruence).
  assert (He : 0 <= sample_base + 56) by (vm_compute; congruence).
  assert (Hnt : USENAMETABLE build32 sample_header = true) by reflexivity.
  assert (Hin : USENAMETABLE build32 (with_defsize sample_header 24) = false)
    by reflexivity.
  destruct (table_record_round_trip build32 sample_base sample_header
              (sample_base + 56) 16 [] Ha He) as [Hname _].
  destruct (table_record_round_trip build32 sample_base
              (with_defsize sample_header 24) (sample_base + 56) 16 [] Ha He)
    as [_ Hinline].
  split; [exact Ha |]. split; [exact Hnt |]. split; [| split; [exact Hin |]].
  - apply (Hname 64 Hnt).
    + vm_compute. split; congruence.
    + vm_compute. congruence.
    + vm_compute. congruence.
    + vm_compute. reflexivity.
  - destruct (Hinline [109; 97; 105; 110] Hin) as (_ & Hg & Hbytes & _).
    { repeat constructor; vm_compute; congruence. }
    { vm_compute. congruence. }
    rewrite Hg in Hbytes. exact Hbytes.
Defined.

Lemma usertag_characters_witness :
  Z.land (Z.shiftr (AMX_USERTAG Long32 65 66 67 200) 24) 0xff = 200
  /\ Z.land (Z.shiftr (AMX_USERTAG Long64 65 66 67 200) 16) 0xff = 67
  /\ AMX_USERTAG Long32 65 66 67 200 <> 0.
Proof.
  destruct (usertag_characters Long32 65 66 67 200 ltac:(lia) ltac:(lia)
              ltac:(lia) ltac:(lia)) as (_ & _ & _ & Hd & _ & Hz).
  destruct (usertag_characters Long64 65 66 67 200 ltac:(lia) ltac:(lia)
              ltac:(lia) ltac:(lia)) as (_ & _ & Hc & _).
  split; [exact Hd |]. split; [exact Hc |].
  intros E. apply Hz in E. lia.
Defined.

Lemma error_code_decoding_witness :
  err_of_code 20 = Some AMX_ERR_INDEX /\ err_code AMX_ERR_INDEX = 20.
Proof.
  assert (H : err_of_code 20 = Some AMX_ERR_INDEX) by reflexivity.
  split; [exact H |].
  exact (proj1 (proj2 error_code_decoding) 20 AMX_ERR_INDEX H).
Defined.

Lemma flag_updates_independent_witness :
  In AMX_FLAG_DEBUG amx_flags /\ In AMX_FLAG_RELOC amx_flags
  /\ AMX_FLAG_DEBUG <> AMX_FLAG_RELOC
  /\ Z.land (Z.lor AMX_FLAG_RELOC AMX_FLAG_DEBUG) AMX_FLAG_RELOC
     = Z.land AMX_FLAG_RELOC AMX_FLAG_RELOC.
Proof.
  assert (H1 : In AMX_FLAG_DEBUG amx_flags) by (simpl; auto).
  assert (H2 : In AMX_FLAG_RELOC amx_flags) by (simpl; auto 12).
  assert (H3 : AMX_FLAG_DEBUG <> AMX_FLAG_RELOC) by (vm_compute; congruence).
  split; [exact H1 |]. split; [exact H2 |]. split; [exact H3 |].
  exact (proj1 (proj2 (proj2 (flag_updates_independent AMX_FLAG_RELOC
                                AMX_FLAG_DEBUG AMX_FLAG_RELOC H1 H2)) H3)).
Defined.

Lemma header_flags_signed_witness :
  In AMX_FLAG_DEBUG amx_flags
  /\ h_flags (read_header (image_of (with_flags sample_header (-32766)))
                sample_base) < 0
  /\ Z.land (h_flags (read_header (image_of (with_flags sample_header (-32766)))
                        sample_base)) AMX_FLAG_DEBUG
     = Z.land 0x8002 AMX_FLAG_DEBUG.
Proof.
  assert (H1 : In AMX_FLAG_DEBUG amx_flags) by (simpl; auto).
  destruct (header_flags_signed (image_of (with_flags sample_header (-32766)))
              sample_base) as [Htest Hsign].
  split; [exact H1 |]. split.
  - apply Hsign. vm_compute. congruence.
  - rewrite (Htest _ H1). reflexivity.
Defined.

Lemma address_offsets_witness :
  amx_Address build32 sample_image sample_loaded (8 + 4)
  = amx_Address build32 sample_image sample_loaded 8 + 4
  /\ amx_Address build32 sample_image sample_loaded 8
     <> amx_Address build32 sample_image sample_loaded 12.
Proof.
  destruct (address_offsets build32 sample_image sample_loaded)
    as (Hoff & Hinj & _).
  split.
  - rewrite Hoff. vm_compute. reflexivity.
  - intros E. apply Hinj in E. vm_compute in E. discriminate.
Defined.
